(** * Formatting and file handling of the Whisper transcription tool

    A shallow embedding of [src/formatters.py] (class [OutputFormatter]) and
    [src/file_processor.py] (class [AudioFileProcessor]), with the properties
    stated for them, and of the code around them:
    [TranscriptionConfig.validate_paths] of [src/config.py], the device
    choice, the options and [transcribe_file] of [src/transcriber.py], and
    the processing loop of [src/app.py].  The Whisper model, [torch], the
    file system and the JSON library are parameters.

    Python values are embedded as the inductive [pyval]; a [dict] is an
    association list in insertion order.  A Python [float] is an IEEE-754
    binary64 number, embedded in [Float64] with exact integer arithmetic:
    every operation is the exact operation followed by rounding to nearest,
    ties to even.  A Python [str] is embedded as its UTF-8 encoding, a
    [string] of bytes: the order of strings is the order of their code
    points, [str.strip] removes the white space of Unicode, and [str.lower]
    is embedded for the characters whose lower-case form is in ASCII.  A
    call that raises returns [Raise e]. *)

From Stdlib Require Import ZArith List String Ascii Bool Lia DecimalString.
From Stdlib Require Import Sorting.Sorted Sorting.Permutation.
Import ListNotations.

Set Warnings "-register-all".
Local Open Scope Z_scope.

Infix "+:+" := String.append (at level 60, right associativity).

(** ** Exceptions and the error monad *)

Inductive exn : Type :=
| TypeError
| AttributeError
| ZeroDivisionError
| OverflowError
| ValueError (msg : string).

Inductive result (A : Type) : Type :=
| Ok (a : A)
| Raise (e : exn).

Arguments Ok {A} a.
Arguments Raise {A} e.

Definition bind {A B : Type} (m : result A) (k : A -> result B) : result B :=
  match m with
  | Ok a => k a
  | Raise e => Raise e
  end.

Notation "x <- m ;; k" := (bind m (fun x => k))
  (at level 61, m at next level, right associativity).

Definition returns {A : Type} (m : result A) : Prop := exists a, m = Ok a.

(** ** IEEE-754 binary64 *)

Module Float64.

(** [1.0] and [2^1024], counted in units of [2^-1074], the smallest positive
    binary64 number. *)
Definition unit : Z := 2 ^ 1074.
Definition top : Z := 2 ^ 2098.

(** A finite number is [(-1)^neg * n * 2^-1074]. *)
Inductive float : Type :=
| NaN
| Inf (neg : bool)
| Fin (neg : bool) (n : Z).

Definition signed (neg : bool) (n : Z) : Z := if neg then - n else n.

(** Round the non-negative rational [num / den] (in units) to the nearest
    number with a 53-bit significand, ties to even; overflow gives infinity. *)
Definition round_ne (neg : bool) (num den : Z) : float :=
  let s := Z.max 0 (Z.log2 (num / den) + 1 - 53) in
  let D := den * 2 ^ s in
  let q := num / D in
  let r := num mod D in
  let up := (D <? 2 * r) || ((2 * r =? D) && Z.odd q) in
  let n := (if up then q + 1 else q) * 2 ^ s in
  if top <=? n then Inf neg else Fin neg n.

Definition zero : float := Fin false 0.

(** Conversion of an integer, and of the decimal literal [d * 10^-k]. *)
Definition of_Z (z : Z) : float := round_ne (z <? 0) (Z.abs z * unit) 1.
Definition of_decimal (d k : Z) : float :=
  round_ne (d <? 0) (Z.abs d * unit) (10 ^ k).

Definition is_zero (x : float) : bool :=
  match x with
  | Fin _ n => n =? 0
  | _ => false
  end.

Definition sign (x : float) : bool :=
  match x with
  | NaN => false
  | Inf s => s
  | Fin s _ => s
  end.

Definition opp (x : float) : float :=
  match x with
  | NaN => NaN
  | Inf s => Inf (negb s)
  | Fin s n => Fin (negb s) n
  end.

Definition add (x y : float) : float :=
  match x, y with
  | NaN, _ | _, NaN => NaN
  | Inf a, Inf b => if Bool.eqb a b then Inf a else NaN
  | Inf a, Fin _ _ => Inf a
  | Fin _ _, Inf b => Inf b
  | Fin a n, Fin b m =>
      let v := signed a n + signed b m in
      if v =? 0 then Fin (a && b) 0 else round_ne (v <? 0) (Z.abs v) 1
  end.

Definition sub (x y : float) : float := add x (opp y).

Definition mul (x y : float) : float :=
  match x, y with
  | NaN, _ | _, NaN => NaN
  | Inf a, Inf b => Inf (xorb a b)
  | Inf a, Fin b m => if m =? 0 then NaN else Inf (xorb a b)
  | Fin a n, Inf b => if n =? 0 then NaN else Inf (xorb a b)
  | Fin a n, Fin b m => round_ne (xorb a b) (n * m) unit
  end.

Definition div (x y : float) : float :=
  match x, y with
  | NaN, _ | _, NaN => NaN
  | Inf _, Inf _ => NaN
  | Inf a, Fin b _ => Inf (xorb a b)
  | Fin a _, Inf b => Fin (xorb a b) 0
  | Fin a n, Fin b m =>
      if m =? 0 then (if n =? 0 then NaN else Inf (xorb a b))
      else round_ne (xorb a b) (n * unit) m
  end.

(** C's [fmod]: exact, with the sign of the dividend. *)
Definition fmod (x y : float) : float :=
  match x, y with
  | NaN, _ | _, NaN => NaN
  | Inf _, _ => NaN
  | Fin a n, Inf _ => Fin a n
  | Fin a n, Fin _ m => if m =? 0 then NaN else Fin a (n mod m)
  end.

Definition floor (x : float) : float :=
  match x with
  | Fin false n => Fin false (n / unit * unit)
  | Fin true n => Fin true ((n + unit - 1) / unit * unit)
  | _ => x
  end.

Definition ltb (x y : float) : bool :=
  match x, y with
  | NaN, _ | _, NaN => false
  | Inf a, Inf b => a && negb b
  | Inf a, Fin _ _ => a
  | Fin _ _, Inf b => negb b
  | Fin a n, Fin b m => signed a n <? signed b m
  end.

Definition copysign_zero (y : float) : float := Fin (sign y) 0.

(** The numbers that binary64 holds: at most 53 significant bits, below
    [2^1024]. *)
Definition representable (n : Z) : Prop :=
  0 <= n < top /\ exists m s, n = m * 2 ^ s /\ 0 <= m < 2 ^ 53 /\ 0 <= s.

(** The same, as a test on the bits of [n]. *)
Definition representableb (n : Z) : bool :=
  (0 <=? n) && (n <? top)
  && (n mod 2 ^ Z.max 0 (Z.log2 n + 1 - 53) =? 0).

End Float64.

Import Float64.

(** ** Python numbers *)

(** CPython's [float_rem]: [vx % wx]. *)
Definition py_float_mod (vx wx : float) : result float :=
  if is_zero wx then Raise ZeroDivisionError
  else
    let md := fmod vx wx in
    if negb (is_zero md) then
      if xorb (ltb wx zero) (ltb md zero) then Ok (add md wx) else Ok md
    else Ok (copysign_zero wx).

(** CPython's [float_floor_div]: [vx // wx]. *)
Definition py_float_floordiv (vx wx : float) : result float :=
  if is_zero wx then Raise ZeroDivisionError
  else
    let md := fmod vx wx in
    let dv := div (sub vx md) wx in
    let dv :=
      if negb (is_zero md) && xorb (ltb wx zero) (ltb md zero)
      then sub dv (of_Z 1) else dv in
    if negb (is_zero dv) then
      let fl := floor dv in
      if ltb (of_decimal 5 1) (sub dv fl) then Ok (add fl (of_Z 1)) else Ok fl
    else Ok (copysign_zero (div vx wx)).

Inductive num : Type :=
| NInt (z : Z)
| NFloat (f : float).

(** [float(n)] for an [int] raises [OverflowError] when [n] is too large. *)
Definition to_float (a : num) : result float :=
  match a with
  | NFloat f => Ok f
  | NInt z =>
      match of_Z z with
      | Fin s n => Ok (Fin s n)
      | _ => Raise OverflowError
      end
  end.

Definition py_floordiv (a b : num) : result num :=
  match a, b with
  | NInt x, NInt y =>
      if y =? 0 then Raise ZeroDivisionError else Ok (NInt (x / y))
  | _, _ =>
      fa <- to_float a ;; fb <- to_float b ;;
      f <- py_float_floordiv fa fb ;; Ok (NFloat f)
  end.

Definition py_mod (a b : num) : result num :=
  match a, b with
  | NInt x, NInt y =>
      if y =? 0 then Raise ZeroDivisionError else Ok (NInt (x mod y))
  | _, _ =>
      fa <- to_float a ;; fb <- to_float b ;;
      f <- py_float_mod fa fb ;; Ok (NFloat f)
  end.

Definition py_mul (a b : num) : result num :=
  match a, b with
  | NInt x, NInt y => Ok (NInt (x * y))
  | _, _ => fa <- to_float a ;; fb <- to_float b ;; Ok (NFloat (mul fa fb))
  end.

(** [int(a)]: truncation; NaN and the infinities raise. *)
Definition py_int (a : num) : result Z :=
  match a with
  | NInt z => Ok z
  | NFloat NaN => Raise (ValueError "cannot convert float NaN to integer")
  | NFloat (Inf _) => Raise OverflowError
  | NFloat (Fin s n) => Ok (signed s (n / unit))
  end.

(** ** Strings and number formatting *)

Definition digits (z : Z) : string :=
  NilZero.string_of_uint (N.to_uint (Z.to_N z)).

Fixpoint zeros (n : nat) : string :=
  match n with
  | O => EmptyString
  | S n' => String "0" (zeros n')
  end.

Definition str_len (s : string) : Z := Z.of_nat (String.length s).

(** The format specification [0{width}d]. *)
Definition fmt_0d (width : Z) (z : Z) : string :=
  let sg := if z <? 0 then "-"%string else EmptyString in
  let ds := digits (Z.abs z) in
  sg +:+ zeros (Z.to_nat (width - str_len sg - str_len ds)) +:+ ds.

(** [str(z)] for an [int]. *)
Definition str_of_int (z : Z) : string := fmt_0d 0 z.

Definition nl : string := String (ascii_of_nat 10) EmptyString.

(** Rounding of [num / den] to the nearest integer, ties to even. *)
Definition round_half_even (num den : Z) : Z :=
  let q := num / den in
  let r := num mod den in
  if (den <? 2 * r) || ((2 * r =? den) && Z.odd q) then q + 1 else q.

(** The format specification [.2f] applied to a float. *)
Definition fmt_2f (x : float) : string :=
  match x with
  | NaN => "nan"
  | Inf false => "inf"
  | Inf true => "-inf"
  | Fin s n =>
      let h := round_half_even (n * 100) unit in
      (if s then "-"%string else EmptyString)
        +:+ digits (h / 100) +:+ "." +:+ fmt_0d 2 (h mod 100)
  end.

(** The string whose bytes are [l]: the UTF-8 encoding of a character. *)
Definition bytes (l : list nat) : string :=
  string_of_list_ascii (map ascii_of_nat l).

(** The characters that [str.strip] removes, those of [str.isspace], in
    UTF-8: U+0009 to U+000D, U+001C to U+0020, U+0085, U+00A0, U+1680,
    U+2000 to U+200A, U+2028, U+2029, U+202F, U+205F and U+3000. *)
Definition spaces : list string :=
  map bytes
    [[9]; [10]; [11]; [12]; [13]; [28]; [29]; [30]; [31]; [32];
     [194; 133]; [194; 160]; [225; 154; 128];
     [226; 128; 128]; [226; 128; 129]; [226; 128; 130]; [226; 128; 131];
     [226; 128; 132]; [226; 128; 133]; [226; 128; 134]; [226; 128; 135];
     [226; 128; 136]; [226; 128; 137]; [226; 128; 138];
     [226; 128; 168]; [226; 128; 169]; [226; 128; 175]; [226; 129; 159];
     [227; 128; 128]]%nat.

(** [s] without its prefix [w], when it starts with [w]. *)
Fixpoint drop_prefix (w s : string) : option string :=
  match w, s with
  | EmptyString, _ => Some s
  | String a w', String b s' =>
      if Ascii.eqb a b then drop_prefix w' s' else None
  | String _ _, EmptyString => None
  end.

(** [s] without the character of [ws] that it starts with, when there is
    one. *)
Fixpoint drop_space (ws : list string) (s : string) : option string :=
  match ws with
  | [] => None
  | w :: ws' =>
      match drop_prefix w s with
      | Some r => Some r
      | None => drop_space ws' s
      end
  end.

(** The loop of [str.lstrip]: at most [n] characters of [ws] are dropped
    from the front of [s]. *)
Fixpoint lstrip_loop (ws : list string) (n : nat) (s : string) : string :=
  match n with
  | O => s
  | S n' =>
      match drop_space ws s with
      | Some r => lstrip_loop ws n' r
      | None => s
      end
  end.

Fixpoint reverse (s : string) : string :=
  match s with
  | EmptyString => EmptyString
  | String c s' => reverse s' +:+ String c EmptyString
  end.

(** [s.lstrip()], [s.rstrip()] and [s.strip()].  A string of [n] bytes
    holds at most [n] characters; [rstrip] reads the string from its end. *)
Definition lstrip (s : string) : string :=
  lstrip_loop spaces (String.length s) s.

Definition rstrip (s : string) : string :=
  reverse (lstrip_loop (map reverse spaces) (String.length s) (reverse s)).

Definition strip (s : string) : string := rstrip (lstrip s).

(** ** Python values *)

Inductive pyval : Type :=
| PNone
| PBool (b : bool)
| PInt (z : Z)
| PFloat (f : float)
| PStr (s : string)
| PList (l : list pyval)
| PDict (items : list (string * pyval)).

(** A [dict] with string keys, in insertion order. *)
Definition dict : Type := list (string * pyval).

Fixpoint lookup (k : string) (d : dict) : option pyval :=
  match d with
  | [] => None
  | (k', v) :: d' => if String.eqb k k' then Some v else lookup k d'
  end.

(** [d[k] = v]: replaces the value of an existing key in place, or appends. *)
Fixpoint dict_set (d : dict) (k : string) (v : pyval) : dict :=
  match d with
  | [] => [(k, v)]
  | (k', v') :: d' =>
      if String.eqb k k' then (k', v) :: d' else (k', v') :: dict_set d' k v
  end.

Definition keys (d : dict) : list string := map fst d.

(** [d.get(k, default)] on a dict. *)
Definition dict_get (d : dict) (k : string) (default : pyval) : pyval :=
  match lookup k d with
  | Some v => v
  | None => default
  end.

(** [v.get(k, default)] on any value: only a dict has the method. *)
Definition py_get (v : pyval) (k : string) (default : pyval) : result pyval :=
  match v with
  | PDict d => Ok (dict_get d k default)
  | _ => Raise AttributeError
  end.

(** [v.strip()]: only a string has the method. *)
Definition py_strip (v : pyval) : result string :=
  match v with
  | PStr s => Ok (strip s)
  | _ => Raise AttributeError
  end.

(** Truth value of an object, as tested by [if v:] and [if not v:]. *)
Definition truthy (v : pyval) : bool :=
  match v with
  | PNone => false
  | PBool b => b
  | PInt z => negb (z =? 0)
  | PFloat f => negb (is_zero f)
  | PStr s => negb (String.eqb s EmptyString)
  | PList l => match l with [] => false | _ => true end
  | PDict d => match d with [] => false | _ => true end
  end.

Fixpoint chars (s : string) : list pyval :=
  match s with
  | EmptyString => []
  | String c s' => PStr (String c EmptyString) :: chars s'
  end.

(** The items a [for] loop visits. *)
Definition py_iter (v : pyval) : result (list pyval) :=
  match v with
  | PList l => Ok l
  | PStr s => Ok (chars s)
  | PDict d => Ok (map (fun kv => PStr (fst kv)) d)
  | _ => Raise TypeError
  end.

(** The operand of an arithmetic operator; [bool] is a subclass of [int]. *)
Definition as_num (v : pyval) : result num :=
  match v with
  | PInt z => Ok (NInt z)
  | PBool b => Ok (NInt (if b then 1 else 0))
  | PFloat f => Ok (NFloat f)
  | _ => Raise TypeError
  end.

(** [format(v, ".2f")]. *)
Definition py_format_2f (v : pyval) : result string :=
  match v with
  | PStr _ => Raise (ValueError "Unknown format code 'f' for object of type 'str'")
  | PNone | PList _ | PDict _ => Raise TypeError
  | _ => n <- as_num v ;; f <- to_float n ;; Ok (fmt_2f f)
  end.

(** ** The time-code formatters *)

(** [OutputFormatter._format_srt_time] *)
Definition _format_srt_time (seconds : pyval) : result string :=
  s <- as_num seconds ;;
  h <- py_floordiv s (NInt 3600) ;;
  hours <- py_int h ;;
  m <- py_mod s (NInt 3600) ;;
  m <- py_floordiv m (NInt 60) ;;
  minutes <- py_int m ;;
  sc <- py_mod s (NInt 60) ;;
  secs <- py_int sc ;;
  ms <- py_mod s (NInt 1) ;;
  ms <- py_mul ms (NInt 1000) ;;
  milliseconds <- py_int ms ;;
  Ok (fmt_0d 2 hours +:+ ":" +:+ fmt_0d 2 minutes +:+ ":" +:+ fmt_0d 2 secs
        +:+ "," +:+ fmt_0d 3 milliseconds).

(** [OutputFormatter._format_vtt_time] *)
Definition _format_vtt_time (seconds : pyval) : result string :=
  s <- as_num seconds ;;
  h <- py_floordiv s (NInt 3600) ;;
  hours <- py_int h ;;
  m <- py_mod s (NInt 3600) ;;
  m <- py_floordiv m (NInt 60) ;;
  minutes <- py_int m ;;
  sc <- py_mod s (NInt 60) ;;
  secs <- py_int sc ;;
  ms <- py_mod s (NInt 1) ;;
  ms <- py_mul ms (NInt 1000) ;;
  milliseconds <- py_int ms ;;
  Ok (fmt_0d 2 hours +:+ ":" +:+ fmt_0d 2 minutes +:+ ":" +:+ fmt_0d 2 secs
        +:+ "." +:+ fmt_0d 3 milliseconds).

(** ** The formatters of [OutputFormatter] *)

(** Library functions the formatters call: [repr] of floats, lists and dicts,
    [json.dumps(v, indent=2, ensure_ascii=False)] and [json.loads]. *)
Record PyLib : Type := {
  py_repr : pyval -> string;
  json_dumps : pyval -> string;
  json_loads : string -> option pyval
}.

Definition rule50 : string :=
  "==================================================".

(** One cue of [format_srt], appended to the content built so far. *)
Definition srt_cue (i : Z) (segment : pyval) (srt_content : string)
  : result string :=
  st <- py_get segment "start" (PInt 0) ;;
  start_time <- _format_srt_time st ;;
  en <- py_get segment "end" (PInt 0) ;;
  end_time <- _format_srt_time en ;;
  tx <- py_get segment "text" (PStr "") ;;
  text <- py_strip tx ;;
  Ok (srt_content +:+ str_of_int i +:+ nl +:+ start_time +:+ " --> "
        +:+ end_time +:+ nl +:+ text +:+ nl +:+ nl).

Fixpoint srt_loop (i : Z) (segments : list pyval) (srt_content : string)
  : result string :=
  match segments with
  | [] => Ok srt_content
  | segment :: rest =>
      c <- srt_cue i segment srt_content ;; srt_loop (i + 1) rest c
  end.

(** [OutputFormatter.format_srt] *)
Definition format_srt (res : dict) : result string :=
  let segments := dict_get res "segments" (PList []) in
  if negb (truthy segments) then
    text <- py_strip (dict_get res "text" (PStr "")) ;;
    duration <- py_get (dict_get res "metadata" (PDict [])) "duration" (PInt 30) ;;
    t <- _format_srt_time duration ;;
    Ok ("1" +:+ nl +:+ "00:00:00,000 --> " +:+ t +:+ nl +:+ text +:+ nl +:+ nl)
  else
    items <- py_iter segments ;; srt_loop 1 items EmptyString.

(** One cue of [format_vtt]. *)
Definition vtt_cue (segment : pyval) (vtt_content : string) : result string :=
  st <- py_get segment "start" (PInt 0) ;;
  start_time <- _format_vtt_time st ;;
  en <- py_get segment "end" (PInt 0) ;;
  end_time <- _format_vtt_time en ;;
  tx <- py_get segment "text" (PStr "") ;;
  text <- py_strip tx ;;
  Ok (vtt_content +:+ start_time +:+ " --> " +:+ end_time +:+ nl +:+ text
        +:+ nl +:+ nl).

Fixpoint vtt_loop (segments : list pyval) (vtt_content : string)
  : result string :=
  match segments with
  | [] => Ok vtt_content
  | segment :: rest => c <- vtt_cue segment vtt_content ;; vtt_loop rest c
  end.

(** [OutputFormatter.format_vtt] *)
Definition format_vtt (res : dict) : result string :=
  let segments := dict_get res "segments" (PList []) in
  let vtt_content := "WEBVTT" +:+ nl +:+ nl in
  if negb (truthy segments) then
    text <- py_strip (dict_get res "text" (PStr "")) ;;
    duration <- py_get (dict_get res "metadata" (PDict [])) "duration" (PInt 30) ;;
    t <- _format_vtt_time duration ;;
    Ok (vtt_content +:+ "00:00:00.000 --> " +:+ t +:+ nl +:+ text +:+ nl +:+ nl)
  else
    items <- py_iter segments ;; vtt_loop items vtt_content.

Section Formatters.

Context (lib : PyLib).

(** [str(v)], as an f-string field without a format specification. *)
Definition py_str (v : pyval) : string :=
  match v with
  | PStr s => s
  | PNone => "None"
  | PBool true => "True"
  | PBool false => "False"
  | PInt z => str_of_int z
  | _ => py_repr lib v
  end.

(** One entry of the Segments section of [format_markdown]. *)
Definition md_entry (i : Z) (segment : pyval) (content : string)
  : result string :=
  start <- py_get segment "start" (PInt 0) ;;
  end_ <- py_get segment "end" (PInt 0) ;;
  tx <- py_get segment "text" (PStr "") ;;
  segment_text <- py_strip tx ;;
  s1 <- py_format_2f start ;;
  s2 <- py_format_2f end_ ;;
  Ok (content +:+ "**" +:+ str_of_int i +:+ ".** [" +:+ s1 +:+ "s - " +:+ s2
        +:+ "s] " +:+ segment_text +:+ nl +:+ nl).

Fixpoint md_loop (i : Z) (segments : list pyval) (content : string)
  : result string :=
  match segments with
  | [] => Ok content
  | segment :: rest => c <- md_entry i segment content ;; md_loop (i + 1) rest c
  end.

(** [OutputFormatter.format_markdown]; [now] is [datetime.now().isoformat()]. *)
Definition format_markdown (now : string) (res : dict) : result string :=
  let metadata := dict_get res "metadata" (PDict []) in
  text <- py_strip (dict_get res "text" (PStr "")) ;;
  file_path <- py_get metadata "file_path" (PStr "Unknown") ;;
  model <- py_get metadata "model" (PStr "Unknown") ;;
  language <- py_get metadata "language" (PStr "Unknown") ;;
  duration <- py_get metadata "duration" (PInt 0) ;;
  dur <- py_format_2f duration ;;
  let content :=
    "# Transcription" +:+ nl +:+ nl
    +:+ "**File:** " +:+ py_str file_path +:+ nl
    +:+ "**Model:** " +:+ py_str model +:+ nl
    +:+ "**Language:** " +:+ py_str language +:+ nl
    +:+ "**Duration:** " +:+ dur +:+ " seconds" +:+ nl
    +:+ "**Generated:** " +:+ now +:+ nl +:+ nl
    +:+ "## Content" +:+ nl +:+ nl
    +:+ text +:+ nl in
  let segments := dict_get res "segments" (PList []) in
  if truthy segments then
    items <- py_iter segments ;;
    md_loop 1 items (content +:+ nl +:+ "## Segments" +:+ nl +:+ nl)
  else Ok content.

(** [OutputFormatter.format_text] *)
Definition format_text (now : string) (res : dict) : result string :=
  text <- py_strip (dict_get res "text" (PStr "")) ;;
  let metadata := dict_get res "metadata" (PDict []) in
  file_path <- py_get metadata "file_path" (PStr "Unknown") ;;
  model <- py_get metadata "model" (PStr "Unknown") ;;
  language <- py_get metadata "language" (PStr "Unknown") ;;
  duration <- py_get metadata "duration" (PInt 0) ;;
  dur <- py_format_2f duration ;;
  let header :=
    "Transcription of: " +:+ py_str file_path +:+ nl
    +:+ "Model: " +:+ py_str model +:+ nl
    +:+ "Language: " +:+ py_str language +:+ nl
    +:+ "Duration: " +:+ dur +:+ " seconds" +:+ nl
    +:+ "Generated: " +:+ now +:+ nl +:+ nl
    +:+ rule50 +:+ nl +:+ nl in
  Ok (header +:+ text).

(** [OutputFormatter.format_json].  The assignment to
    [result['generated_at']] writes into the caller's dict: the function
    returns that dict as it is after the call, with the formatted text. *)
Definition format_json (now : string) (res : dict) : dict * result string :=
  let res' := dict_set res "generated_at" (PStr now) in
  (res', Ok (json_dumps lib (PDict res'))).

(** [OutputFormatter.format_result]: the caller's dict after the call, and
    the formatted text or the exception. *)
Definition format_result (now : string) (res : dict) (output_format : string)
  : dict * result string :=
  if String.eqb output_format "md" then (res, format_markdown now res)
  else if String.eqb output_format "txt" then (res, format_text now res)
  else if String.eqb output_format "json" then format_json now res
  else if String.eqb output_format "srt" then (res, format_srt res)
  else if String.eqb output_format "vtt" then (res, format_vtt res)
  else (res, Raise (ValueError ("Unsupported output format: " +:+ output_format))).

End Formatters.

(** ** Paths ([pathlib.PurePosixPath]) *)

Record path : Type := { absolute : bool; parts : list string }.

Definition is_slash (c : ascii) : bool := Ascii.eqb c "/".

(** The components of a path string, split at [/]; [cur] is the component
    being read.  Empty components and [.] are dropped. *)
Fixpoint split_parts (s : string) (cur : string) : list string :=
  let close (rest : list string) :=
    if String.eqb cur EmptyString || String.eqb cur "." then rest
    else cur :: rest in
  match s with
  | EmptyString => close []
  | String c s' =>
      if is_slash c then close (split_parts s' EmptyString)
      else split_parts s' (cur +:+ String c EmptyString)
  end.

(** [Path(s)], for a string that does not start with exactly two slashes:
    [pathlib] keeps such a root apart as [//], which [path] does not
    represent. *)
Definition parse_path (s : string) : path :=
  {| absolute := match s with String c _ => is_slash c | _ => false end;
     parts := split_parts s EmptyString |}.

(** [p / s] for a string [s]. *)
Definition path_div (p : path) (s : string) : path :=
  let q := parse_path s in
  if absolute q then q
  else {| absolute := absolute p; parts := parts p ++ parts q |}.

(** [p.name]: the last component. *)
Definition name (p : path) : string := last (parts p) EmptyString.

(** [p.parent] *)
Definition parent (p : path) : path :=
  {| absolute := absolute p; parts := removelast (parts p) |}.

(** [s.rfind(".")], or [None] when [s] holds no dot. *)
Fixpoint rfind_dot (s : string) : option nat :=
  match s with
  | EmptyString => None
  | String c s' =>
      match rfind_dot s' with
      | Some i => Some (S i)
      | None => if Ascii.eqb c "." then Some O else None
      end
  end.

(** The index at which the suffix of a file name starts, when it has one. *)
Definition suffix_start (nm : string) : option nat :=
  match rfind_dot nm with
  | Some i =>
      if ((0 <? i) && (i <? String.length nm - 1))%nat then Some i else None
  | None => None
  end.

(** [p.suffix] *)
Definition suffix (p : path) : string :=
  let nm := name p in
  match suffix_start nm with
  | Some i => substring i (String.length nm - i) nm
  | None => EmptyString
  end.

(** [p.stem] *)
Definition stem (p : path) : string :=
  let nm := name p in
  match suffix_start nm with
  | Some i => substring 0 i nm
  | None => nm
  end.

Definition lower_char (c : ascii) : ascii :=
  let n := nat_of_ascii c in
  if ((65 <=? n) && (n <=? 90))%nat then ascii_of_nat (n + 32) else c.

(** The Kelvin sign U+212A in UTF-8, the one character outside of ASCII
    whose lower-case form is in ASCII: the letter k. *)
Definition kelvin (a b c : ascii) : bool :=
  ((nat_of_ascii a =? 226) && (nat_of_ascii b =? 132)
   && (nat_of_ascii c =? 170))%nat.

(** [s.lower()] for the characters with a lower-case form in ASCII: the
    letters A to Z and the Kelvin sign.  Every other character is left as it
    is, so that [lower s] is [s.lower()] whenever one of the two is an ASCII
    string; that decides every comparison of [s.lower()] with an ASCII
    string. *)
Fixpoint lower (s : string) : string :=
  match s with
  | EmptyString => EmptyString
  | String a s1 =>
      match s1 with
      | String b (String c s3) =>
          if kelvin a b c then String "k" (lower s3)
          else String (lower_char a) (lower s1)
      | _ => String (lower_char a) (lower s1)
      end
  end.

(** The order of paths: lexicographic on the components, the root first. *)
Definition cparts (p : path) : list string :=
  (if absolute p then ["/"%string] else []) ++ parts p.

Fixpoint parts_leb (a b : list string) : bool :=
  match a, b with
  | [], _ => true
  | _ :: _, [] => false
  | x :: a', y :: b' =>
      match String.compare x y with
      | Lt => true
      | Gt => false
      | Eq => parts_leb a' b'
      end
  end.

Definition path_leb (p q : path) : bool := parts_leb (cparts p) (cparts q).

(** [sorted(l)], as a stable insertion sort. *)
Fixpoint insert_path (p : path) (l : list path) : list path :=
  match l with
  | [] => [p]
  | q :: l' => if path_leb q p then q :: insert_path p l' else p :: q :: l'
  end.

Fixpoint sorted (l : list path) : list path :=
  match l with
  | [] => []
  | p :: l' => insert_path p (sorted l')
  end.

(** ** The file system under a folder *)

Inductive entry : Type :=
| File
| Dir (children : list (string * entry))
| Other.

(** Every entry below [p], with its path: what [p.glob("**/*")] yields. *)
Fixpoint walk (p : path) (e : entry) {struct e} : list (path * entry) :=
  match e with
  | Dir children =>
      (fix go (cs : list (string * entry)) : list (path * entry) :=
         match cs with
         | [] => []
         | (nm, c) :: rest =>
             (path_div p nm, c) :: walk (path_div p nm) c ++ go rest
         end) children
  | _ => []
  end.

(** The entries directly in [p]: what [p.glob("*")] yields. *)
Definition listdir (p : path) (e : entry) : list (path * entry) :=
  match e with
  | Dir children => map (fun c => (path_div p (fst c), snd c)) children
  | _ => []
  end.

Definition glob (p : path) (e : entry) (recursive : bool)
  : list (path * entry) :=
  if recursive then walk p e else listdir p e.

Definition is_file (e : entry) : bool :=
  match e with
  | File => true
  | _ => false
  end.

(** ** [AudioFileProcessor] *)

(** The fields of the configuration that the file handling reads.  Pydantic
    admits a [batch_size] from 1 on ([Field(ge=1)]); the statements about
    batches carry that bound as the hypothesis [1 <= batch_size config]. *)
Record TranscriptionConfig : Type := {
  audio_file : option path;
  audio_folder : option path;
  transcribe_folder : option path;
  transcription_file : option path;
  recursive : bool;
  batch_size : Z
}.

(** [TranscriptionConfig.supported_extensions] *)
Definition supported_extensions : list string :=
  [".mp3"; ".wav"; ".m4a"; ".flac"; ".ogg"; ".wma"; ".aac"; ".mp4"; ".mkv";
   ".avi"]%string.

Definition mem (s : string) (l : list string) : bool :=
  existsb (String.eqb s) l.

(** [AudioFileProcessor._is_audio_file] *)
Definition _is_audio_file (p : path) : bool :=
  mem (lower (suffix p)) supported_extensions.

(** [AudioFileProcessor._find_audio_files]; [tree] is the entry at [folder]. *)
Definition _find_audio_files (config : TranscriptionConfig) (folder : path)
  (tree : entry) : list path :=
  let audio_files :=
    map fst
      (filter (fun pe => is_file (snd pe) && _is_audio_file (fst pe))
         (glob folder tree (recursive config))) in
  sorted audio_files.

(** [AudioFileProcessor.discover_audio_files] *)
Definition discover_audio_files (config : TranscriptionConfig) (tree : entry)
  : result (list path) :=
  match audio_file config with
  | Some f => Ok [f]
  | None =>
      match audio_folder config with
      | Some folder => Ok (_find_audio_files config folder tree)
      | None => Raise (ValueError "No audio source specified")
      end
  end.

(** [AudioFileProcessor._get_extension_for_format] *)
Definition _get_extension_for_format (output_format : string) : string :=
  if String.eqb output_format "md" then "md"
  else if String.eqb output_format "txt" then "txt"
  else if String.eqb output_format "json" then "json"
  else if String.eqb output_format "srt" then "srt"
  else if String.eqb output_format "vtt" then "vtt"
  else "txt".

(** [AudioFileProcessor.get_output_path] *)
Definition get_output_path (config : TranscriptionConfig) (audio_path : path)
  (output_format : string) : path :=
  match transcription_file config, audio_file config with
  | Some tf, Some _ => tf
  | _, _ =>
      let base_name := stem audio_path in
      let extension := _get_extension_for_format output_format in
      let output_filename := base_name +:+ "_transcription." +:+ extension in
      match transcribe_folder config with
      | Some folder => path_div folder output_filename
      | None => path_div (parent audio_path) output_filename
      end
  end.

(** [range(start, stop, step)]; a zero step raises [ValueError]. *)
Definition py_range (start stop step : Z) : result (list Z) :=
  if step =? 0 then Raise (ValueError "range() arg 3 must not be zero")
  else
    let count :=
      if 0 <? step then (stop - start + step - 1) / step
      else (start - stop - step - 1) / (- step) in
    Ok (map (fun i => start + Z.of_nat i * step) (seq 0 (Z.to_nat count))).

(** The slice [l[lo:hi]]. *)
Definition py_slice {A : Type} (l : list A) (lo hi : Z) : list A :=
  let len := Z.of_nat (List.length l) in
  let norm i := if i <? 0 then Z.max 0 (i + len) else Z.min i len in
  firstn (Z.to_nat (norm hi - norm lo)) (skipn (Z.to_nat (norm lo)) l).

(** [AudioFileProcessor.batch_files]: the batches the generator yields. *)
Definition batch_files (config : TranscriptionConfig) (files : list path)
  : result (list (list path)) :=
  let batch_size := batch_size config in
  r <- py_range 0 (Z.of_nat (List.length files)) batch_size ;;
  Ok (map (fun i => py_slice files i (i + batch_size)) r).

(** ** [TranscriptionConfig.validate_paths] *)

(** [str(p)] *)
Definition path_str (p : path) : string :=
  match parts p with
  | [] => if absolute p then "/" else "."
  | _ => (if absolute p then "/" else EmptyString)
           +:+ String.concat "/" (parts p)
  end.

(** The file system as the validation sees it: a state [S], the test
    [p.exists()] and [p.mkdir(parents=True, exist_ok=True)], which returns
    the new state or raises. *)
Record FileSystem (S : Type) : Type := {
  fs_exists : S -> path -> bool;
  fs_mkdir : S -> path -> result S
}.

Arguments fs_exists {S} _ _ _.
Arguments fs_mkdir {S} _ _ _.

(** [TranscriptionConfig.validate_paths] *)
Definition validate_paths {S : Type} (fs : FileSystem S)
  (config : TranscriptionConfig) (s : S) : result S :=
  let missing (o : option path) :=
    match o with
    | Some p => negb (fs_exists fs s p)
    | None => false
    end in
  let unset (o : option path) :=
    match o with
    | Some _ => false
    | None => true
    end in
  if missing (audio_file config) then
    Raise (ValueError ("Audio file does not exist: "
                       +:+ match audio_file config with
                           | Some p => path_str p
                           | None => EmptyString
                           end))
  else if missing (audio_folder config) then
    Raise (ValueError ("Audio folder does not exist: "
                       +:+ match audio_folder config with
                           | Some p => path_str p
                           | None => EmptyString
                           end))
  else if unset (audio_file config) && unset (audio_folder config) then
    Raise (ValueError "Either audio_file or audio_folder must be specified")
  else if negb (unset (audio_file config))
          && negb (unset (audio_folder config)) then
    Raise (ValueError "Cannot specify both audio_file and audio_folder")
  else
    match transcribe_folder config with
    | Some t => if fs_exists fs s t then Ok s else fs_mkdir fs s t
    | None => Ok s
    end.

(** ** [WhisperTranscriber] *)

Inductive Device : Type :=
| Cpu
| Cuda
| Mps.

(** The model and decoding fields of [TranscriptionConfig]. *)
Record DecodingConfig : Type := {
  model : string;
  language : option string;
  temperature : float;
  top_p : float;
  top_k : option Z;
  device : Device
}.

(** What [torch] reports about the machine. *)
Record Torch : Type := {
  cuda_is_available : bool;
  mps_is_available : bool
}.

Definition device_eqb (a b : Device) : bool :=
  match a, b with
  | Cpu, Cpu | Cuda, Cuda | Mps, Mps => true
  | _, _ => false
  end.

(** [WhisperTranscriber._get_device] *)
Definition _get_device (config : DecodingConfig) (torch : Torch) : Device :=
  if device_eqb (device config) Cuda && cuda_is_available torch then Cuda
  else if device_eqb (device config) Mps && mps_is_available torch then Mps
  else if device_eqb (device config) Cpu then Cpu
  else if mps_is_available torch then Mps
  else if cuda_is_available torch then Cuda
  else Cpu.

(** [x == y] on floats. *)
Definition float_eqb (x y : float) : bool :=
  match x, y with
  | Inf a, Inf b => Bool.eqb a b
  | Fin a n, Fin b m => signed a n =? signed b m
  | _, _ => false
  end.

(** [WhisperTranscriber._get_transcription_options] *)
Definition _get_transcription_options (config : DecodingConfig)
  (torch : Torch) : dict :=
  let options : dict := [] in
  let options :=
    match language config with
    | Some l =>
        if truthy (PStr l) then dict_set options "language" (PStr l)
        else options
    | None => options
    end in
  let options :=
    if negb (float_eqb (temperature config) zero)
    then dict_set options "temperature" (PFloat (temperature config))
    else options in
  let options :=
    if device_eqb (_get_device config torch) Cpu
    then dict_set options "fp16" (PBool false)
    else options in
  let decode_options : dict := [] in
  let decode_options :=
    if negb (float_eqb (top_p config) (of_Z 1))
    then dict_set decode_options "top_p" (PFloat (top_p config))
    else decode_options in
  let decode_options :=
    match top_k config with
    | Some k => dict_set decode_options "top_k" (PInt k)
    | None => decode_options
    end in
  if truthy (PDict decode_options)
  then dict_set options "decode_options" (PDict decode_options)
  else options.

(** The exceptions of the transcriber and of the application: those of the
    formatters, and three more. *)
Inductive failure : Type :=
| FileNotFoundError (msg : string)
| IndexError
| KeyError
| Exception (e : exn).

Inductive attempt (A : Type) : Type :=
| Done (a : A)
| Failed (f : failure).

Arguments Done {A} a.
Arguments Failed {A} f.

Definition attempt_bind {A B : Type} (m : attempt A) (k : A -> attempt B)
  : attempt B :=
  match m with
  | Done a => k a
  | Failed f => Failed f
  end.

Notation "x <~ m ;; k" := (attempt_bind m (fun x => k))
  (at level 61, m at next level, right associativity).

Definition lift {A : Type} (r : result A) : attempt A :=
  match r with
  | Ok a => Done a
  | Raise e => Failed (Exception e)
  end.

(** [v[-1]] *)
Definition py_last (v : pyval) : attempt pyval :=
  match v with
  | PList (x :: l) => Done (last l x)
  | PStr (String c s) =>
      Done (PStr (substring (String.length s) 1 (String c s)))
  | PList [] | PStr EmptyString => Failed IndexError
  | PDict _ => Failed KeyError
  | _ => Failed (Exception TypeError)
  end.

(** What [transcribe_file] asks of its surroundings: whether the file
    exists, its size, and the Whisper model, which returns a dict or
    raises. *)
Record Whisper : Type := {
  file_exists : path -> bool;
  st_size : path -> attempt Z;
  transcribe : string -> dict -> attempt dict
}.

(** [WhisperTranscriber.transcribe_file] *)
Definition transcribe_file (config : DecodingConfig) (torch : Torch)
  (env : Whisper) (audio_path : path) : attempt dict :=
  if negb (file_exists env audio_path) then
    Failed (FileNotFoundError
              ("Audio file not found: " +:+ path_str audio_path))
  else if negb (_is_audio_file audio_path) then
    Failed (Exception (ValueError ("Unsupported audio format: "
                                   +:+ suffix audio_path)))
  else
    let options := _get_transcription_options config torch in
    res <~ transcribe env (path_str audio_path) options ;;
    size <~ st_size env audio_path ;;
    let lang :=
      dict_get res "language"
        match language config with
        | Some l => PStr l
        | None => PNone
        end in
    duration <~
      (if truthy (dict_get res "segments" PNone) then
         l <~ py_last (dict_get res "segments" (PList [PDict []])) ;;
         lift (py_get l "end" (PInt 0))
       else Done (PInt 0)) ;;
    Done (dict_set res "metadata"
          (PDict [("file_path", PStr (path_str audio_path));
                  ("file_size", PInt size);
                  ("model", PStr (model config));
                  ("language", lang);
                  ("duration", duration)]%string)).

(** ** [TranscriptionApp._process_files] *)

(** What the progress display and the log have recorded. *)
Record Report : Type := {
  main_advanced : Z;
  finished_tasks : list (Z * Z);
  logged : list (path * failure)
}.

(** The files of one batch: each is processed; an exception is logged and the
    loop goes on; both tasks advance either way. *)
Fixpoint process_batch {S : Type} (process : S -> path -> S * attempt Datatypes.unit)
  (batch : list path) (s : S) (advanced : Z) (r : Report) : S * Z * Report :=
  match batch with
  | [] => (s, advanced, r)
  | audio_file :: rest =>
      let (s', outcome) := process s audio_file in
      let r' :=
        match outcome with
        | Done _ =>
            {| main_advanced := main_advanced r + 1;
               finished_tasks := finished_tasks r;
               logged := logged r |}
        | Failed e =>
            {| main_advanced := main_advanced r + 1;
               finished_tasks := finished_tasks r;
               logged := logged r ++ [(audio_file, e)] |}
        end in
      process_batch process rest s' (advanced + 1) r'
  end.

Fixpoint process_batches {S : Type} (process : S -> path -> S * attempt Datatypes.unit)
  (batches : list (list path)) (s : S) (r : Report) : S * Report :=
  match batches with
  | [] => (s, r)
  | batch :: rest =>
      let '(s', advanced, r') := process_batch process batch s 0 r in
      process_batches process rest s'
        {| main_advanced := main_advanced r';
           finished_tasks :=
             finished_tasks r' ++ [(Z.of_nat (List.length batch), advanced)];
           logged := logged r' |}
  end.

(** [TranscriptionApp._process_files]; [process] is
    [_process_single_file], acting on the state [S] of the outside world. *)
Definition _process_files {S : Type} (config : TranscriptionConfig)
  (process : S -> path -> S * attempt Datatypes.unit) (files : list path) (s : S)
  : result (S * Report) :=
  batches <- batch_files config files ;;
  Ok (process_batches process batches s
        {| main_advanced := 0; finished_tasks := []; logged := [] |}).

(** Processing the files one after the other, without batches. *)
Fixpoint process_each {S : Type} (process : S -> path -> S * attempt Datatypes.unit)
  (files : list path) (s : S) : S * list (path * failure) :=
  match files with
  | [] => (s, [])
  | f :: rest =>
      let (s', outcome) := process s f in
      let (s'', errs) := process_each process rest s' in
      (s'',
       match outcome with
       | Done _ => errs
       | Failed e => (f, e) :: errs
       end)
  end.

(** ** [AudioFileProcessor.get_file_stats] *)

(** [a / b] for two [int]s: the quotient, correctly rounded. *)
Definition py_truediv_int (a b : Z) : result float :=
  if b =? 0 then Raise ZeroDivisionError
  else
    match round_ne (xorb (a <? 0) (b <? 0)) (Z.abs a * unit) (Z.abs b) with
    | Inf _ => Raise OverflowError
    | f => Ok f
    end.

(** [round(x, 2)]: the decimal with two places nearest to [x], ties to
    even, and then the float nearest to that decimal. *)
Definition py_round2 (x : float) : result float :=
  match x with
  | Fin s n =>
      let q := n * 100 / unit in
      let r := n * 100 mod unit in
      let up := (unit <? 2 * r) || ((2 * r =? unit) && Z.odd q) in
      match round_ne s ((if up then q + 1 else q) * unit) 100 with
      | Inf _ => Raise OverflowError
      | f => Ok f
      end
  | _ => Ok x
  end.

(** [sum(f.stat().st_size for f in files if f.exists())], from [acc]. *)
Fixpoint sum_sizes (env : Whisper) (files : list path) (acc : Z)
  : attempt Z :=
  match files with
  | [] => Done acc
  | f :: rest =>
      if file_exists env f then
        size <~ st_size env f ;; sum_sizes env rest (acc + size)
      else sum_sizes env rest acc
  end.

(** [extensions.get(ext, default)] and [extensions[ext] = v] for the dict of
    counts, kept in insertion order. *)
Fixpoint count_get (extensions : list (string * Z)) (ext : string)
  (default : Z) : Z :=
  match extensions with
  | [] => default
  | (k, v) :: rest => if String.eqb k ext then v else count_get rest ext default
  end.

Fixpoint count_set (extensions : list (string * Z)) (ext : string) (v : Z)
  : list (string * Z) :=
  match extensions with
  | [] => [(ext, v)]
  | (k, w) :: rest =>
      if String.eqb k ext then (k, v) :: rest
      else (k, w) :: count_set rest ext v
  end.

Fixpoint count_loop (files : list path) (extensions : list (string * Z))
  : list (string * Z) :=
  match files with
  | [] => extensions
  | f :: rest =>
      let ext := lower (suffix f) in
      count_loop rest (count_set extensions ext (count_get extensions ext 0 + 1))
  end.

Record FileStats : Type := {
  total_files : Z;
  total_size_mb : float;
  file_types : list (string * Z);
  batch_count : Z
}.

(** [AudioFileProcessor.get_file_stats] *)
Definition get_file_stats (config : TranscriptionConfig) (env : Whisper)
  (files : list path) : attempt FileStats :=
  total_size <~ sum_sizes env files 0 ;;
  let extensions := count_loop files [] in
  mb <~ lift (py_truediv_int total_size (1024 * 1024)) ;;
  mb <~ lift (py_round2 mb) ;;
  batches <~ lift (batch_files config files) ;;
  Done {| total_files := Z.of_nat (List.length files);
          total_size_mb := mb;
          file_types := extensions;
          batch_count := Z.of_nat (List.length batches) |}.

(** ** Vocabulary of the statements *)

(** The decomposition that both time-code formatters compute: hours, minutes,
    whole seconds and milliseconds. *)
Definition time_fields (seconds : pyval) : result (Z * Z * Z * Z) :=
  s <- as_num seconds ;;
  h <- py_floordiv s (NInt 3600) ;;
  hours <- py_int h ;;
  m <- py_mod s (NInt 3600) ;;
  m <- py_floordiv m (NInt 60) ;;
  minutes <- py_int m ;;
  sc <- py_mod s (NInt 60) ;;
  secs <- py_int sc ;;
  ms <- py_mod s (NInt 1) ;;
  ms <- py_mul ms (NInt 1000) ;;
  milliseconds <- py_int ms ;;
  Ok (hours, minutes, secs, milliseconds).

(** Hours, minutes and seconds padded to two digits, milliseconds to three,
    with [sep] before the milliseconds. *)
Definition render_time (sep : string) (f : Z * Z * Z * Z) : string :=
  let '(hours, minutes, secs, milliseconds) := f in
  fmt_0d 2 hours +:+ ":" +:+ fmt_0d 2 minutes +:+ ":" +:+ fmt_0d 2 secs
    +:+ sep +:+ fmt_0d 3 milliseconds.

Definition time_code (sep : string) (seconds : pyval) : result string :=
  f <- time_fields seconds ;; Ok (render_time sep f).

(** The largest binary64 number, an integer. *)
Definition max_int : Z := (2 ^ 53 - 1) * 2 ^ 971.

(** A time in seconds as the data model has it: a non-negative [int] or a
    non-negative finite [float]. *)
Definition is_timeb (v : pyval) : bool :=
  match v with
  | PInt z => (0 <=? z) && (z <=? max_int)
  | PFloat (Fin false n) => representableb n
  | _ => false
  end.

Definition is_time (v : pyval) : Prop := is_timeb v = true.

(** The text of one cue: the time range with [sep] before the milliseconds,
    the stripped text, and a blank line. *)
Definition cue_body (sep : string) (segment : pyval) : result string :=
  st <- py_get segment "start" (PInt 0) ;;
  start_time <- time_code sep st ;;
  en <- py_get segment "end" (PInt 0) ;;
  end_time <- time_code sep en ;;
  tx <- py_get segment "text" (PStr "") ;;
  text <- py_strip tx ;;
  Ok (start_time +:+ " --> " +:+ end_time +:+ nl +:+ text +:+ nl +:+ nl).

(** A cue that starts with its index line. *)
Definition indexed_cue (sep : string) (i : Z) (segment : pyval)
  : result string :=
  b <- cue_body sep segment ;; Ok (str_of_int i +:+ nl +:+ b).

(** The cues of the segments in order, numbered from [i]. *)
Fixpoint cues (cue : Z -> pyval -> result string) (i : Z)
  (segments : list pyval) : result string :=
  match segments with
  | [] => Ok EmptyString
  | segment :: rest =>
      c <- cue i segment ;; r <- cues cue (i + 1) rest ;; Ok (c +:+ r)
  end.

(** The WebVTT text with the cue structure of the SRT text: the header, then
    indexed cues with a dot before the milliseconds. *)
Definition vtt_with_srt_cues (segments : list pyval) : result string :=
  c <- cues (indexed_cue ".") 1 segments ;; Ok ("WEBVTT" +:+ nl +:+ nl +:+ c).

Definition supported_tags : list string :=
  ["md"; "txt"; "json"; "srt"; "vtt"]%string.


(** An entry directly in the directory [e] at [p], and an entry anywhere
    below it. *)
Inductive child_of (p : path) : entry -> path -> entry -> Prop :=
| child_intro (children : list (string * entry)) (nm : string) (c : entry) :
    In (nm, c) children -> child_of p (Dir children) (path_div p nm) c.

Inductive below (p : path) (e : entry) : path -> entry -> Prop :=
| below_child (q : path) (c : entry) : child_of p e q c -> below p e q c
| below_deeper (q : path) (c : entry) (q' : path) (c' : entry) :
    child_of p e q c -> below q c q' c' -> below p e q' c'.

Definition path_le (p q : path) : Prop := path_leb p q = true.

(** The shape of a transcription result: every key may be missing; a key
    that is present holds a value of the type the data model gives it. *)
Definition absent_or (P : pyval -> bool) (d : dict) (k : string) : bool :=
  match lookup k d with
  | None => true
  | Some v => P v
  end.

Definition is_str (v : pyval) : bool :=
  match v with
  | PStr _ => true
  | _ => false
  end.

Definition shaped_segment (v : pyval) : bool :=
  match v with
  | PDict d =>
      absent_or is_timeb d "start" && absent_or is_timeb d "end"
      && absent_or is_str d "text"
  | _ => false
  end.

Definition shaped_segments (v : pyval) : bool :=
  match v with
  | PList l => forallb shaped_segment l
  | _ => false
  end.

Definition shaped_metadata (v : pyval) : bool :=
  match v with
  | PDict d => absent_or is_timeb d "duration"
  | _ => false
  end.

Definition shaped_result (res : dict) : Prop :=
  absent_or is_str res "text" && absent_or shaped_segments res "segments"
  && absent_or shaped_metadata res "metadata" = true.







(** ** The pages of the Markdown and text formats *)





(** ** Capitals *)

(** The capital of a small ASCII letter; any other byte is left as it is. *)
Definition capital (c : ascii) : ascii :=
  let n := nat_of_ascii c in
  if ((97 <=? n) && (n <=? 122))%nat then ascii_of_nat (n - 32) else c.

(** [spells s t]: [s] is [t] with any of its letters written as capitals;
    the Kelvin sign U+212A is a capital of the letter k. *)
Inductive spells : string -> string -> Prop :=
| spells_nil : spells EmptyString EmptyString
| spells_same (c : ascii) (s t : string) :
    spells s t -> spells (String c s) (String c t)
| spells_capital (c : ascii) (s t : string) :
    spells s t -> spells (String (capital c) s) (String c t)
| spells_kelvin (s t : string) :
    spells s t -> spells (bytes [226; 132; 170]%nat +:+ s) (String "k" t).

(** An ASCII string without capitals. *)
Fixpoint small (t : string) : bool :=
  match t with
  | EmptyString => true
  | String c t' =>
      (nat_of_ascii c <? 128)%nat && Ascii.eqb (lower_char c) c && small t'
  end.

(** ** White space *)

(** A string of white-space characters only. *)
Inductive white_of (ws : list string) : string -> Prop :=
| white_nil : white_of ws EmptyString
| white_cons (w s : string) :
    In w ws -> white_of ws s -> white_of ws (w +:+ s).

Definition white : string -> Prop := white_of spaces.

(** A string that neither starts nor ends with a white-space character. *)
Definition trimmed (t : string) : Prop :=
  forall w u, In w spaces -> t <> w +:+ u /\ t <> u +:+ w.

(** [t] is [text] trimmed: [text] without the white space at its ends. *)
Definition trim_of (text t : string) : Prop :=
  exists l r, text = l +:+ t +:+ r /\ white l /\ white r /\ trimmed t.

(** A list of dicts. *)
Definition is_dict (v : pyval) : bool :=
  match v with
  | PDict _ => true
  | _ => false
  end.

Definition dict_list (v : pyval) : bool :=
  match v with
  | PList l => forallb is_dict l
  | _ => false
  end.

(** ** Sample data *)

(** The result that the repository's tests format. *)
Definition sample_result : dict :=
  [("text", PStr "Hello, this is a test transcription.");
   ("language", PStr "en");
   ("segments",
    PList [PDict [("start", PFloat (of_decimal 0 1));
                  ("end", PFloat (of_decimal 25 1));
                  ("text", PStr "Hello, this is a test")];
           PDict [("start", PFloat (of_decimal 25 1));
                  ("end", PFloat (of_decimal 50 1));
                  ("text", PStr " transcription.")]]);
   ("metadata",
    PDict [("file_path", PStr "/path/to/audio.mp3");
           ("file_size", PInt 1024000);
           ("model", PStr "base");
           ("language", PStr "en");
           ("duration", PFloat (of_decimal 50 1))])]%string.

(** A result without segments. *)
Definition single_line_result : dict :=
  [("text", PStr "Single line transcription");
   ("metadata", PDict [("duration", PFloat (of_decimal 100 1))])]%string.

(** A folder with names in capitals, among them an extension written with
    the Kelvin sign, a directory named like an audio file and a file in a
    sub-folder. *)
Definition mixed_case_tree : entry :=
  Dir [("c.TXT", File); ("a.Mp3", File);
       ("k.M" +:+ bytes [226; 132; 170]%nat +:+ "V", File);
       ("B.WAV", File); ("x.mp3", Dir []);
       ("SUB", Dir [("D.M4A", File)])]%string.

(** A text between white space of several kinds: a no-break space U+00A0 and
    a space before it; a space, a tab, an ideographic space U+3000 and a
    line feed after it. *)
Definition padded_text : string :=
  bytes [194; 160]%nat +:+ " Hello world " +:+ bytes [9]%nat
    +:+ bytes [227; 128; 128]%nat +:+ nl.

(** A result that holds the padded text and nothing else. *)
Definition padded_result : dict := [("text", PStr padded_text)]%string.


(** A stand-in for the library functions, enough to evaluate the formatters
    on the sample data: [repr] prints a placeholder, [json.dumps] prints the
    keys of the document, and [json.loads] reads that text back as the
    single-line sample stamped with the time [sample_now]. *)
Definition sample_now : string := "2026-01-01T00:00:00".

Definition stub_dumps (v : pyval) : string :=
  match v with
  | PDict d => String.concat "," (keys d)
  | _ => EmptyString
  end.

Definition stub_lib : PyLib :=
  {| py_repr := fun _ => "<repr>"%string;
     json_dumps := stub_dumps;
     json_loads := fun s =>
       if String.eqb s "text,metadata,generated_at"
       then Some (PDict (dict_set single_line_result "generated_at"
                           (PStr sample_now)))
       else None |}.

(** A folder that holds three files and a sub-folder with one file. *)
Definition sample_tree : entry :=
  Dir [("c.txt", File); ("b.wav", File); ("a.mp3", File);
       ("sub", Dir [("d.m4a", File)])]%string.

Definition folder_config (folder : path) (rec : bool) : TranscriptionConfig :=
  {| audio_file := None; audio_folder := Some folder;
     transcribe_folder := None; transcription_file := None;
     recursive := rec; batch_size := 1 |}.

(** The devices that the machine has. *)
Definition available (torch : Torch) (d : Device) : bool :=
  match d with
  | Cpu => true
  | Cuda => cuda_is_available torch
  | Mps => mps_is_available torch
  end.

(** A file system in which every path exists. *)
Definition full_fs : FileSystem Datatypes.unit :=
  {| fs_exists := fun _ _ => true; fs_mkdir := fun s _ => Ok s |}.

(** A processing step that counts the files it has seen and fails on the
    files that are not audio files. *)
Definition counting_process (n : Z) (p : path) : Z * attempt Datatypes.unit :=
  (n + 1,
   if _is_audio_file p then Done tt
   else Failed (Exception (ValueError "Unsupported audio format"))).

(** The tasks of batches that were carried through: each advanced to its
    total. *)
Definition completed_tasks (batches : list (list path)) : list (Z * Z) :=
  map (fun b => (Z.of_nat (List.length b), Z.of_nat (List.length b))) batches.

(** The default decoding configuration, a machine without accelerator, and
    two stand-ins for the model: one returns the text and segments of the
    sample result, the other a text without segments. *)
Definition default_decoding : DecodingConfig :=
  {| model := "base"; language := Some "en"%string; temperature := zero;
     top_p := Fin false unit; top_k := None; device := Cpu |}.

Definition cpu_only : Torch :=
  {| cuda_is_available := false; mps_is_available := false |}.

Definition sample_whisper : Whisper :=
  {| file_exists := fun _ => true;
     st_size := fun _ => Done 1024000;
     transcribe := fun _ _ =>
       Done [("text", PStr "Hello, this is a test transcription.");
             ("language", PStr "en");
             ("segments", dict_get sample_result "segments" (PList []))]%string |}.

Definition silent_whisper : Whisper :=
  {| file_exists := fun _ => true;
     st_size := fun _ => Done 1024;
     transcribe := fun _ _ =>
       Done [("text", PStr padded_text); ("segments", PList [])]%string |}.

(** ** Vocabulary of the output paths *)

(** A string that holds no [/]. *)
Fixpoint slash_free (s : string) : bool :=
  match s with
  | EmptyString => true
  | String c s' => negb (is_slash c) && slash_free s'
  end.

(** A component as [pathlib] keeps it: no [/], not empty and not [.]. *)
Definition component (s : string) : bool :=
  slash_free s && negb (String.eqb s EmptyString) && negb (String.eqb s ".").

(** A path as [pathlib] builds it. *)
Definition proper (p : path) : bool := forallb component (parts p).

(** Configurations for which [get_output_path] derives the output name. *)
Definition derives_output (config : TranscriptionConfig) : Prop :=
  transcription_file config = None \/ audio_file config = None.

(** The folder the derived output goes to. *)
Definition output_folder (config : TranscriptionConfig) (audio_path : path)
  : path :=
  match transcribe_folder config with
  | Some folder => folder
  | None => parent audio_path
  end.

(** ** Vocabulary of the file statistics *)




(** The size of a file whose [stat] succeeds, and the sizes of the files of
    a list that exist, added up. *)
Definition size_of (env : Whisper) (f : path) : Z :=
  match st_size env f with
  | Done z => z
  | Failed _ => 0
  end.

Definition existing_size (env : Whisper) (files : list path) : Z :=
  fold_right Z.add 0 (map (size_of env) (filter (file_exists env) files)).

(** Every file of the list that exists can be read for its size. *)
Definition sizes_readable (env : Whisper) (files : list path) : Prop :=
  forall f, In f files -> file_exists env f = true ->
  exists z, st_size env f = Done z.

(** * Properties *)

(** ** Rounding *)

Lemma unit_pos : 0 < unit.
Proof. vm_compute. reflexivity. Qed.

Lemma pow2_pos (s : Z) : 0 <= s -> 0 < 2 ^ s.
Proof. intros. apply Z.pow_pos_nonneg; lia. Qed.

(** A representable bound lies on every coarser grid that rounding below it
    can use. *)
Lemma representable_on_grid (X q0 : Z) :
  representable X -> 0 <= q0 <= X ->
  let sh := Z.max 0 (Z.log2 q0 + 1 - 53) in
  exists Xq, X = Xq * 2 ^ sh /\ 0 <= Xq.
Proof.
  intros [HX (m & e & -> & Hm & He)] Hq sh.
  destruct (Z.max_spec 0 (Z.log2 q0 + 1 - 53)) as [[Hlt Hs] | [Hge Hs]];
    fold sh in Hs.
  - assert (0 < q0)
      by (destruct (Z.eq_dec q0 0) as [-> | ]; [ simpl in Hlt; lia | lia ]).
    destruct (Z.log2_spec q0 H) as [Hlo _].
    assert (Hlog : Z.log2 q0 = sh + 52) by lia.
    rewrite Hlog in Hlo.
    assert (Hp : 2 ^ (sh + 52) < 2 ^ (53 + e)).
    { rewrite (Z.pow_add_r 2 53 e) by lia.
      pose proof (pow2_pos e He). nia. }
    apply Z.pow_lt_mono_r_iff in Hp; try lia.
    exists (m * 2 ^ (e - sh)). split.
    + rewrite <- Z.mul_assoc, <- Z.pow_add_r by lia. f_equal. f_equal. lia.
    + pose proof (pow2_pos (e - sh)). nia.
  - exists (m * 2 ^ e). rewrite Hs. rewrite Z.pow_0_r. split; [ lia | ].
    pose proof (pow2_pos e He). nia.
Qed.

(** Rounding never exceeds a representable number above the exact value, so
    it stays finite. *)
Lemma round_ne_le (s : bool) (num den X : Z) :
  0 <= num -> 0 < den -> representable X -> num <= X * den ->
  exists k, round_ne s num den = Fin s k /\ 0 <= k <= X.
Proof.
  intros Hnum Hden HX Hle.
  assert (Hq0 : 0 <= num / den <= X).
  { split; [ apply Z.div_pos; lia | apply Z.div_le_upper_bound; lia ]. }
  destruct (representable_on_grid X (num / den) HX Hq0) as (Xq & HXq & HXq0).
  unfold round_ne.
  set (sh := Z.max 0 (Z.log2 (num / den) + 1 - 53)) in *.
  assert (Hsh : 0 <= sh) by (unfold sh; lia).
  pose proof (pow2_pos sh Hsh) as Hpow.
  set (D := den * 2 ^ sh).
  assert (HD : 0 < D) by (unfold D; nia).
  pose proof (Z.div_mod num D ltac:(lia)) as Hdm.
  pose proof (Z.mod_pos_bound num D HD) as Hr.
  assert (Hq : 0 <= num / D <= Xq).
  { split; [ apply Z.div_pos; lia | apply Z.div_le_upper_bound; [ lia | ] ].
    unfold D. rewrite HXq in Hle. nia. }
  destruct HX as [[_ HXtop] _].
  set (up := (D <? 2 * (num mod D))
             || ((2 * (num mod D) =? D) && Z.odd (num / D))).
  assert (Hk : 0 <= (if up then num / D + 1 else num / D) * 2 ^ sh <= X).
  { destruct (Z.eq_dec (num / D) Xq) as [Heq | Hne].
    - assert (Hr0 : num mod D = 0).
      { rewrite Heq in Hdm. unfold D in *. rewrite HXq in Hle. nia. }
      unfold up. rewrite Hr0.
      replace (D <? 2 * 0) with false by (symmetry; apply Z.ltb_ge; lia).
      replace (2 * 0 =? D) with false by (symmetry; apply Z.eqb_neq; lia).
      simpl. rewrite Heq. lia.
    - destruct up; nia. }
  exists ((if up then num / D + 1 else num / D) * 2 ^ sh).
  split; [ | exact Hk ].
  replace (top <=? _) with false; [ reflexivity | ].
  symmetry. apply Z.leb_gt. lia.
Qed.

(** ** Finite floats stay finite *)

Lemma representableb_sound (n : Z) :
  representableb n = true -> representable n.
Proof.
  unfold representableb. intros H.
  apply andb_prop in H. destruct H as [H Hmod].
  apply andb_prop in H. destruct H as [H0 Htop].
  apply Z.leb_le in H0. apply Z.ltb_lt in Htop. apply Z.eqb_eq in Hmod.
  split; [ lia | ].
  set (sh := Z.max 0 (Z.log2 n + 1 - 53)) in *.
  assert (Hsh : 0 <= sh) by (unfold sh; lia).
  pose proof (pow2_pos sh Hsh) as Hp.
  exists (n / 2 ^ sh), sh. split; [ | split; [ split | exact Hsh ] ].
  - pose proof (Z.div_mod n (2 ^ sh) ltac:(lia)). lia.
  - apply Z.div_pos; lia.
  - apply Z.div_lt_upper_bound; [ lia | ].
    rewrite <- Z.pow_add_r by lia.
    destruct (Z.eq_dec n 0) as [-> | Hn].
    + apply Z.pow_pos_nonneg; lia.
    + destruct (Z.log2_spec n ltac:(lia)) as [_ Hhi].
      eapply Z.lt_le_trans; [ exact Hhi | ].
      apply Z.pow_le_mono_r; [ lia | ]. unfold sh. lia.
Qed.

Lemma top_unit : top = 2 ^ 1024 * unit.
Proof. vm_compute. reflexivity. Qed.

Lemma representable_pow2 (e : Z) : 0 <= e < 2098 -> representable (2 ^ e).
Proof.
  intros He. split.
  - split; [ apply Z.pow_nonneg; lia | ].
    unfold top. apply Z.pow_lt_mono_r; lia.
  - exists 1, e. repeat split; lia.
Qed.

Lemma of_Z_1 : of_Z 1 = Fin false unit.
Proof. vm_compute. reflexivity. Qed.

Lemma of_Z_60 : of_Z 60 = Fin false (60 * unit).
Proof. vm_compute. reflexivity. Qed.

Lemma of_Z_1000 : of_Z 1000 = Fin false (1000 * unit).
Proof. vm_compute. reflexivity. Qed.

Lemma of_Z_3600 : of_Z 3600 = Fin false (3600 * unit).
Proof. vm_compute. reflexivity. Qed.

Lemma py_float_mod_nonneg (n m : Z) :
  0 <= n -> 0 < m ->
  py_float_mod (Fin false n) (Fin false m) = Ok (Fin false (n mod m)).
Proof.
  intros Hn Hm. unfold py_float_mod, fmod, is_zero, ltb, zero, signed.
  replace (m =? 0) with false by (symmetry; apply Z.eqb_neq; lia).
  pose proof (Z.mod_pos_bound n m Hm) as Hr.
  replace (m <? 0) with false by (symmetry; apply Z.ltb_ge; lia).
  replace (n mod m <? 0) with false by (symmetry; apply Z.ltb_ge; lia).
  destruct (n mod m =? 0) eqn:E; simpl; [ | reflexivity ].
  apply Z.eqb_eq in E. rewrite E. reflexivity.
Qed.

(** Subtracting a smaller non-negative number stays below a representable
    bound of the larger one. *)
Lemma sub_nonneg_le (n r X : Z) :
  representable X -> 0 <= r <= n -> n <= X ->
  exists t, sub (Fin false n) (Fin false r) = Fin false t /\ 0 <= t <= X.
Proof.
  intros HX Hr Hn. unfold sub, opp, add, signed. simpl negb.
  destruct (n + - r =? 0) eqn:E.
  - exists 0. split; [ reflexivity | lia ].
  - apply Z.eqb_neq in E.
    replace (n + - r <? 0) with false by (symmetry; apply Z.ltb_ge; lia).
    rewrite Z.abs_eq by lia.
    apply round_ne_le; try assumption; lia.
Qed.

Lemma add_one_le (f X : Z) :
  representable X -> 0 <= f -> f + unit <= X ->
  exists t, add (Fin false f) (of_Z 1) = Fin false t /\ 0 <= t <= X.
Proof.
  intros HX Hf Hle. rewrite of_Z_1. unfold add, signed.
  pose proof unit_pos.
  replace (f + unit =? 0) with false by (symmetry; apply Z.eqb_neq; lia).
  replace (f + unit <? 0) with false by (symmetry; apply Z.ltb_ge; lia).
  rewrite Z.abs_eq by lia.
  apply round_ne_le; try assumption; lia.
Qed.

(** Floor division of a non-negative finite float by a float that is at least
    4 returns a finite float. *)
Lemma pow2_2096 :
  top = 4 * 2 ^ 2096 /\ 2 ^ 2097 = 2 * 2 ^ 2096 /\ unit <= 2 ^ 2096.
Proof.
  unfold top, unit. split; [ | split ].
  - change 2098 with (2 + 2096). rewrite Z.pow_add_r by lia. reflexivity.
  - change 2097 with (1 + 2096). rewrite Z.pow_add_r by lia. reflexivity.
  - apply Z.pow_le_mono_r; lia.
Qed.

Lemma py_float_floordiv_returns (n m X : Z) :
  representable X -> 0 <= n <= X -> 4 * unit <= m ->
  exists s k, py_float_floordiv (Fin false n) (Fin false m) = Ok (Fin s k).
Proof.
  intros HX Hn Hm. pose proof unit_pos as Hu.
  unfold py_float_floordiv.
  assert (Hm0 : 0 < m) by lia.
  assert (Hz : (m =? 0) = false) by (apply Z.eqb_neq; lia).
  unfold is_zero at 1. rewrite Hz.
  assert (Hfm : fmod (Fin false n) (Fin false m) = Fin false (n mod m))
    by (unfold fmod; rewrite Hz; reflexivity).
  rewrite Hfm.
  pose proof (Z.mod_pos_bound n m Hm0) as Hr.
  assert (Hrn : n mod m <= n) by (apply Z.mod_le; lia).
  destruct (sub_nonneg_le n (n mod m) X HX) as (t & Ht & Htb); try lia.
  rewrite Ht.
  assert (Hsign : xorb (ltb (Fin false m) zero) (ltb (Fin false (n mod m)) zero)
                  = false).
  { unfold ltb, zero, signed.
    replace (m <? 0) with false by (symmetry; apply Z.ltb_ge; lia).
    replace (n mod m <? 0) with false by (symmetry; apply Z.ltb_ge; lia).
    reflexivity. }
  rewrite Hsign, andb_false_r.
  destruct HX as [[_ HXt] _].
  assert (HP : representable (2 ^ 2096)) by (apply representable_pow2; lia).
  assert (HQ : representable (2 ^ 2097)) by (apply representable_pow2; lia).
  destruct pow2_2096 as (Htop & HQP & HuP).
  revert HP HQ Htop HQP HuP.
  generalize (2 ^ 2096) (2 ^ 2097). intros P Q HP HQ Htop HQP HuP.
  assert (Hdiv : exists d, div (Fin false t) (Fin false m) = Fin false d
                           /\ 0 <= d <= P).
  { unfold div. rewrite Hz. simpl xorb.
    apply round_ne_le; [ nia | exact Hm0 | exact HP | nia ]. }
  destruct Hdiv as (d & Hd & Hdb). rewrite Hd.
  destruct (negb (is_zero (Fin false d))).
  - assert (Hfl : floor (Fin false d) = Fin false (d / unit * unit))
      by reflexivity.
    rewrite Hfl.
    assert (Hf : 0 <= d / unit * unit <= d).
    { pose proof (Z.div_mod d unit ltac:(lia)).
      pose proof (Z.mod_pos_bound d unit Hu).
      assert (0 <= d / unit) by (apply Z.div_pos; lia). nia. }
    destruct (ltb (of_decimal 5 1) _).
    + destruct (add_one_le (d / unit * unit) Q HQ) as (a & Ha & _);
        try lia.
      rewrite Ha. eauto.
    + eauto.
  - unfold copysign_zero. eauto.
Qed.

Lemma mul_1000_returns (a : Z) :
  0 <= a < unit ->
  exists k, mul (Fin false a) (Fin false (1000 * unit)) = Fin false k.
Proof.
  intros Ha. unfold mul. simpl xorb.
  pose proof unit_pos as Hu.
  assert (H1 : representable (2 ^ 1084)) by (apply representable_pow2; lia).
  assert (H2 : 2 ^ 1084 = 1024 * unit) by (vm_compute; reflexivity).
  destruct (round_ne_le false (a * (1000 * unit)) unit (2 ^ 1084))
    as (k & Hk & _); try assumption; try nia.
  eauto.
Qed.

Lemma to_float_const (k : Z) :
  k = 1 \/ k = 60 \/ k = 1000 \/ k = 3600 ->
  to_float (NInt k) = Ok (Fin false (k * unit)).
Proof.
  unfold to_float.
  intros [-> | [-> | [-> | ->]]];
    [ rewrite of_Z_1 | rewrite of_Z_60 | rewrite of_Z_1000 | rewrite of_Z_3600 ];
    reflexivity.
Qed.

Ltac run := cbv beta iota delta [bind].

Lemma py_mod_float (n k : Z) :
  0 <= n -> k = 1 \/ k = 60 \/ k = 3600 ->
  py_mod (NFloat (Fin false n)) (NInt k)
  = Ok (NFloat (Fin false (n mod (k * unit)))).
Proof.
  intros Hn Hk. unfold py_mod, to_float at 1. run.
  rewrite to_float_const by tauto. run.
  rewrite py_float_mod_nonneg; [ reflexivity | lia | ].
  pose proof unit_pos. lia.
Qed.

Lemma py_floordiv_float (n k X : Z) :
  representable X -> 0 <= n <= X -> k = 60 \/ k = 3600 ->
  exists s r,
    py_floordiv (NFloat (Fin false n)) (NInt k) = Ok (NFloat (Fin s r)).
Proof.
  intros HX Hn Hk. unfold py_floordiv, to_float at 1. run.
  rewrite to_float_const by tauto. run.
  destruct (py_float_floordiv_returns n (k * unit) X HX Hn) as (s & r & Hr).
  { pose proof unit_pos. lia. }
  rewrite Hr. run. eauto.
Qed.

Lemma py_mul_float (a : Z) :
  0 <= a < unit ->
  exists r, py_mul (NFloat (Fin false a)) (NInt 1000) = Ok (NFloat (Fin false r)).
Proof.
  intros Ha. unfold py_mul, to_float at 1. run.
  rewrite to_float_const by tauto. run.
  destruct (mul_1000_returns a Ha) as (r & Hr). rewrite Hr. eauto.
Qed.

(** The decomposition is defined on every time of the data model. *)
Lemma time_fields_returns (v : pyval) :
  is_time v -> exists f, time_fields v = Ok f.
Proof.
  unfold is_time.
  destruct v as [ | | z | [ | | [ | ] n ] | | | ]; simpl; try discriminate;
    intros Hv.
  - eexists. reflexivity.
  - apply representableb_sound in Hv.
    pose proof unit_pos as Hu.
    assert (Hn : 0 <= n) by (destruct Hv as [[? _] _]; assumption).
    unfold time_fields, as_num. run.
    destruct (py_floordiv_float n 3600 n Hv) as (s1 & r1 & H1); try lia.
    rewrite H1. run. unfold py_int at 1. run.
    rewrite py_mod_float by (auto; lia). run.
    pose proof (Z.mod_pos_bound n (3600 * unit) ltac:(lia)) as Hb1.
    destruct (py_floordiv_float (n mod (3600 * unit)) 60 (2 ^ 1086))
      as (s2 & r2 & H2).
    { apply representable_pow2. lia. }
    { assert (2 ^ 1086 = 4096 * unit) by (vm_compute; reflexivity). lia. }
    { tauto. }
    rewrite H2. run. unfold py_int at 1. run.
    rewrite py_mod_float by (auto; lia). run. unfold py_int at 1. run.
    rewrite py_mod_float by (auto; lia). run.
    destruct (py_mul_float (n mod (1 * unit))) as (r3 & H3).
    { apply Z.mod_pos_bound. lia. }
    rewrite H3. run. unfold py_int. eauto.
Qed.

(** ** The time-code formatters *)

Lemma format_srt_time_code (v : pyval) : _format_srt_time v = time_code "," v.
Proof.
  unfold _format_srt_time, time_code, time_fields.
  run.
  repeat match goal with
         | |- match ?m with Ok _ => _ | Raise _ => _ end = _ =>
             destruct m; cbv beta iota; [ | reflexivity ]
         end.
  reflexivity.
Qed.

Lemma format_vtt_time_code (v : pyval) : _format_vtt_time v = time_code "." v.
Proof.
  unfold _format_vtt_time, time_code, time_fields.
  run.
  repeat match goal with
         | |- match ?m with Ok _ => _ | Raise _ => _ end = _ =>
             destruct m; cbv beta iota; [ | reflexivity ]
         end.
  reflexivity.
Qed.

Lemma time_code_returns (sep : string) (v : pyval) :
  is_time v -> exists t, time_code sep v = Ok t.
Proof.
  intros Hv. destruct (time_fields_returns v Hv) as (f & Hf).
  unfold time_code. rewrite Hf. run. eauto.
Qed.

(** C1 (the code departs from the claim): the claim gives 61.123 the time
    code 00:01:01,123 and 3661.999 the time code 01:01:01,999 (01:01:01.999
    for WebVTT).  The formatters multiply the binary64 fraction by 1000 and
    truncate: on the binary64 numbers nearest to 61.123 and 3661.999 they
    return 00:01:01,122 and 01:01:01,998, one millisecond less. *)
Theorem time_code_61_123_loses_a_millisecond :
  _format_srt_time (PFloat (of_decimal 61123 3)) = Ok "00:01:01,122"%string
  /\ _format_vtt_time (PFloat (of_decimal 61123 3)) = Ok "00:01:01.122"%string
  /\ _format_srt_time (PFloat (of_decimal 3661999 3)) = Ok "01:01:01,998"%string
  /\ _format_vtt_time (PFloat (of_decimal 3661999 3)) = Ok "01:01:01.998"%string.
Proof.
  split; [ | split; [ | split ] ]; vm_compute; reflexivity.
Qed.


(** ** Strings *)

Lemma append_nil_r (s : string) : s +:+ EmptyString = s.
Proof. induction s as [ | c s IH ]; simpl; [ | rewrite IH ]; reflexivity. Qed.

Lemma append_assoc (s t u : string) : (s +:+ t) +:+ u = s +:+ t +:+ u.
Proof. induction s as [ | c s IH ]; simpl; [ | rewrite IH ]; reflexivity. Qed.

(** ** Trimming *)

Lemma drop_prefix_some (w : string) :
  forall s r, drop_prefix w s = Some r <-> s = w +:+ r.
Proof.
  induction w as [ | a w IH ]; intros s r; simpl.
  - split; [ intros H; now injection H | intros ->; reflexivity ].
  - destruct s as [ | b s ]; [ split; discriminate | ].
    destruct (Ascii.eqb a b) eqn:E.
    + apply Ascii.eqb_eq in E. subst b. rewrite IH.
      split; [ intros ->; reflexivity | intros H; now injection H ].
    + apply Ascii.eqb_neq in E. split; [ discriminate | ].
      intros H. injection H as H _. congruence.
Qed.

Lemma drop_space_some (ws : list string) (s r : string) :
  drop_space ws s = Some r -> exists w, In w ws /\ s = w +:+ r.
Proof.
  induction ws as [ | w ws IH ]; simpl; [ discriminate | ].
  destruct (drop_prefix w s) as [ r' | ] eqn:E.
  - intros H. injection H as ->. exists w. split; [ now left | ].
    now apply drop_prefix_some.
  - intros H. destruct (IH H) as (w' & Hin & Hs). exists w'. split;
      [ now right | exact Hs ].
Qed.

Lemma drop_space_none (ws : list string) (s : string) :
  drop_space ws s = None -> forall w u, In w ws -> s <> w +:+ u.
Proof.
  induction ws as [ | w ws IH ]; simpl; [ intros _ w u [] | ].
  destruct (drop_prefix w s) as [ r' | ] eqn:E; [ discriminate | ].
  intros H w' u [<- | Hin] Hs.
  - apply drop_prefix_some in Hs. congruence.
  - exact (IH H w' u Hin Hs).
Qed.

Lemma length_append (a b : string) :
  String.length (a +:+ b) = (String.length a + String.length b)%nat.
Proof. induction a as [ | c a IH ]; simpl; [ reflexivity | now rewrite IH ]. Qed.

(** The loop splits [s] into white space and a rest that starts with none,
    when no character of [ws] is empty and [n] bounds the length of [s]. *)
Lemma lstrip_loop_spec (ws : list string) :
  (forall w, In w ws -> w <> EmptyString) ->
  forall n s,
    (String.length s <= n)%nat ->
    exists l,
      s = l +:+ lstrip_loop ws n s
      /\ white_of ws l
      /\ forall w u, In w ws -> lstrip_loop ws n s <> w +:+ u.
Proof.
  intros Hne. induction n as [ | n IH ]; intros s Hlen.
  - destruct s; [ | simpl in Hlen; lia ].
    exists EmptyString. split; [ reflexivity | split; [ constructor | ] ].
    intros w u Hin H. simpl in H. apply (Hne w Hin).
    destruct w; [ reflexivity | discriminate ].
  - simpl. destruct (drop_space ws s) as [ r | ] eqn:E.
    + destruct (drop_space_some _ _ _ E) as (w & Hin & ->).
      assert (Hr : (String.length r <= n)%nat).
      { rewrite length_append in Hlen. pose proof (Hne w Hin).
        destruct w; [ congruence | simpl in Hlen; lia ]. }
      destruct (IH r Hr) as (l & Hl & Hw & Hnone).
      exists (w +:+ l). split; [ | split; [ now constructor | exact Hnone ] ].
      rewrite append_assoc. now rewrite <- Hl.
    + exists EmptyString. split; [ reflexivity | split; [ constructor | ] ].
      exact (drop_space_none _ _ E).
Qed.

Lemma reverse_append (a b : string) :
  reverse (a +:+ b) = reverse b +:+ reverse a.
Proof.
  induction a as [ | c a IH ]; simpl.
  - now rewrite append_nil_r.
  - now rewrite IH, append_assoc.
Qed.

Lemma reverse_reverse (s : string) : reverse (reverse s) = s.
Proof.
  induction s as [ | c s IH ]; simpl; [ reflexivity | ].
  now rewrite reverse_append, IH.
Qed.

Lemma length_reverse (s : string) : String.length (reverse s) = String.length s.
Proof.
  induction s as [ | c s IH ]; simpl; [ reflexivity | ].
  rewrite length_append, IH. simpl. lia.
Qed.

Lemma white_of_app (ws : list string) (a b : string) :
  white_of ws a -> white_of ws b -> white_of ws (a +:+ b).
Proof.
  induction 1 as [ | w s Hin _ IH ]; intros Hb; [ exact Hb | ].
  rewrite append_assoc. constructor; [ exact Hin | exact (IH Hb) ].
Qed.

Lemma white_of_reverse (ws : list string) (l : string) :
  white_of (map reverse ws) l -> white_of ws (reverse l).
Proof.
  induction 1 as [ | w s Hin _ IH ]; [ constructor | ].
  rewrite reverse_append. apply white_of_app; [ exact IH | ].
  apply in_map_iff in Hin. destruct Hin as (w0 & <- & Hin).
  rewrite reverse_reverse. rewrite <- (append_nil_r w0).
  constructor; [ exact Hin | constructor ].
Qed.

Lemma spaces_not_empty (w : string) : In w spaces -> w <> EmptyString.
Proof.
  intros Hin E. subst w. revert Hin. vm_compute.
  repeat (intros [H | Hin]; [ discriminate H | revert Hin ]). intros [].
Qed.

Lemma lstrip_spec (s : string) :
  exists l,
    s = l +:+ lstrip s /\ white l
    /\ forall w u, In w spaces -> lstrip s <> w +:+ u.
Proof.
  apply (lstrip_loop_spec spaces spaces_not_empty). apply Nat.le_refl.
Qed.

Lemma rstrip_spec (s : string) :
  exists r,
    s = rstrip s +:+ r /\ white r
    /\ forall w u, In w spaces -> rstrip s <> u +:+ w.
Proof.
  assert (Hne : forall w, In w (map reverse spaces) -> w <> EmptyString).
  { intros w Hin E. apply in_map_iff in Hin. destruct Hin as (w0 & Hw & Hin).
    apply (spaces_not_empty w0 Hin).
    rewrite <- (reverse_reverse w0), Hw, E. reflexivity. }
  destruct (lstrip_loop_spec _ Hne (String.length s) (reverse s))
    as (l & Hl & Hw & Hnone); [ rewrite length_reverse; apply Nat.le_refl | ].
  unfold rstrip. exists (reverse l). split; [ | split ].
  - rewrite <- reverse_append, <- Hl. now rewrite reverse_reverse.
  - now apply white_of_reverse.
  - intros w u Hin E. apply (Hnone (reverse w) (reverse u)).
    + apply in_map. exact Hin.
    + rewrite <- reverse_append, <- E. now rewrite reverse_reverse.
Qed.

(** [strip] trims: it takes white space off both ends, and all of it. *)
Lemma strip_trim_of (s : string) : trim_of s (strip s).
Proof.
  destruct (lstrip_spec s) as (l & Hl & Hwl & Hstart).
  destruct (rstrip_spec (lstrip s)) as (r & Hr & Hwr & Hend).
  exists l, r. fold (strip s) in Hr, Hend.
  split; [ now rewrite <- Hr | split; [ exact Hwl | split; [ exact Hwr | ] ] ].
  intros w u Hin. split; [ | exact (Hend w u Hin) ].
  intros E. apply (Hstart w (u +:+ r) Hin).
  rewrite Hr, E. apply append_assoc.
Qed.

(** ** The error monad *)

Lemma bind_assoc {A B C : Type} (m : result A) (f : A -> result B)
  (g : B -> result C) :
  bind (bind m f) g = bind m (fun a => bind (f a) g).
Proof. destruct m; reflexivity. Qed.

(** One step of two computations that run the same call next. *)
Ltac step :=
  match goal with
  | |- match ?m with Ok _ => _ | Raise _ => _ end = _ =>
      destruct m; cbv beta iota; [ | reflexivity ]
  end.

(** ** Cues of the subtitle formats *)

Lemma srt_cue_indexed (i : Z) (segment : pyval) (content : string) :
  srt_cue i segment content
  = (c <- indexed_cue "," i segment ;; Ok (content +:+ c)).
Proof.
  unfold srt_cue, indexed_cue, cue_body. run.
  repeat (rewrite ?format_srt_time_code; step).
  reflexivity.
Qed.

Lemma vtt_cue_body (segment : pyval) (content : string) :
  vtt_cue segment content
  = (c <- cue_body "." segment ;; Ok (content +:+ c)).
Proof.
  unfold vtt_cue, cue_body. run.
  repeat (rewrite ?format_vtt_time_code; step).
  reflexivity.
Qed.

Lemma srt_loop_cues (segments : list pyval) :
  forall (i : Z) (content : string),
    srt_loop i segments content
    = (r <- cues (indexed_cue ",") i segments ;; Ok (content +:+ r)).
Proof.
  induction segments as [ | segment rest IH ]; intros i content; simpl.
  - rewrite append_nil_r. reflexivity.
  - rewrite srt_cue_indexed.
    destruct (indexed_cue "," i segment) as [c | e]; simpl; [ | reflexivity ].
    rewrite IH.
    destruct (cues (indexed_cue ",") (i + 1) rest) as [r | e]; simpl;
      [ | reflexivity ].
    rewrite append_assoc. reflexivity.
Qed.

Lemma vtt_loop_cues (segments : list pyval) :
  forall (i : Z) (content : string),
    vtt_loop segments content
    = (r <- cues (fun _ => cue_body ".") i segments ;; Ok (content +:+ r)).
Proof.
  induction segments as [ | segment rest IH ]; intros i content; simpl.
  - rewrite append_nil_r. reflexivity.
  - rewrite vtt_cue_body.
    destruct (cue_body "." segment) as [c | e]; simpl; [ | reflexivity ].
    rewrite (IH (i + 1)).
    destruct (cues (fun _ => cue_body ".") (i + 1) rest) as [r | e]; simpl;
      [ | reflexivity ].
    rewrite append_assoc. reflexivity.
Qed.

(** C2 (as amended): for a result whose [segments] is a non-empty list, the
    SRT text is the concatenation, in segment order, of cues numbered from 1,
    each an index line followed by the time range with a comma before the
    milliseconds, the text line and a blank line; the WebVTT text is the
    line WEBVTT and a blank line followed by the same cues without their
    index lines and with a dot before the milliseconds. *)
Theorem vtt_cues_are_srt_cues_without_index (res : dict) (segments : list pyval) :
  dict_get res "segments" (PList []) = PList segments ->
  segments <> [] ->
  format_srt res = cues (indexed_cue ",") 1 segments
  /\ format_vtt res
     = (c <- cues (fun _ => cue_body ".") 1 segments ;;
        Ok ("WEBVTT" +:+ nl +:+ nl +:+ c)).
Proof.
  intros Hseg Hne. unfold format_srt, format_vtt. rewrite Hseg.
  destruct segments as [ | segment rest ]; [ congruence | ].
  cbn [truthy negb py_iter]. run. split.
  - rewrite srt_loop_cues.
    destruct (cues _ _ _) as [r | e]; reflexivity.
  - rewrite (vtt_loop_cues _ 1). reflexivity.
Qed.

Lemma vtt_cues_are_srt_cues_without_index_witness :
  dict_get sample_result "segments" (PList []) <> PList []
  /\ format_srt sample_result
     = Ok ("1" +:+ nl +:+ "00:00:00,000 --> 00:00:02,500" +:+ nl
           +:+ "Hello, this is a test" +:+ nl +:+ nl
           +:+ "2" +:+ nl +:+ "00:00:02,500 --> 00:00:05,000" +:+ nl
           +:+ "transcription." +:+ nl +:+ nl)%string
  /\ format_vtt sample_result
     = Ok ("WEBVTT" +:+ nl +:+ nl
           +:+ "00:00:00.000 --> 00:00:02.500" +:+ nl
           +:+ "Hello, this is a test" +:+ nl +:+ nl
           +:+ "00:00:02.500 --> 00:00:05.000" +:+ nl
           +:+ "transcription." +:+ nl +:+ nl)%string.
Proof.
  split; [ discriminate | ].
  destruct (vtt_cues_are_srt_cues_without_index sample_result
              [PDict [("start", PFloat (of_decimal 0 1));
                      ("end", PFloat (of_decimal 25 1));
                      ("text", PStr "Hello, this is a test")];
               PDict [("start", PFloat (of_decimal 25 1));
                      ("end", PFloat (of_decimal 50 1));
                      ("text", PStr " transcription.")]]%string)
    as [Hs Hv]; [ reflexivity | discriminate | ].
  rewrite Hs, Hv. split; vm_compute; reflexivity.
Defined.

(** C2 (counterexample): for the two-segment result of the tests, the WebVTT
    text is not the header followed by cues of the SRT structure: its cues
    carry no index line. *)
Lemma vtt_cues_have_no_index_line :
  dict_get sample_result "segments" (PList [])
  = PList [PDict [("start", PFloat (of_decimal 0 1));
                  ("end", PFloat (of_decimal 25 1));
                  ("text", PStr "Hello, this is a test")];
           PDict [("start", PFloat (of_decimal 25 1));
                  ("end", PFloat (of_decimal 50 1));
                  ("text", PStr " transcription.")]]%string
  /\ format_vtt sample_result
     <> vtt_with_srt_cues
          [PDict [("start", PFloat (of_decimal 0 1));
                  ("end", PFloat (of_decimal 25 1));
                  ("text", PStr "Hello, this is a test")];
           PDict [("start", PFloat (of_decimal 25 1));
                  ("end", PFloat (of_decimal 50 1));
                  ("text", PStr " transcription.")]]%string.
Proof.
  split; [ reflexivity | ].
  vm_compute. discriminate.
Qed.

(** ** Dictionaries *)

Lemma lookup_dict_set_eq (d : dict) (k : string) (v : pyval) :
  lookup k (dict_set d k v) = Some v.
Proof.
  induction d as [ | [k' v'] d IH ]; simpl.
  - rewrite String.eqb_refl. reflexivity.
  - destruct (String.eqb k k') eqn:E; simpl; rewrite E; [ reflexivity | exact IH ].
Qed.

Lemma lookup_dict_set_neq (d : dict) (k k' : string) (v : pyval) :
  k' <> k -> lookup k' (dict_set d k v) = lookup k' d.
Proof.
  intros Hne. apply String.eqb_neq in Hne.
  induction d as [ | [k0 v0] d IH ]; simpl.
  - rewrite Hne. reflexivity.
  - destruct (String.eqb k k0) eqn:E; simpl.
    + apply String.eqb_eq in E. subst k0. rewrite Hne. reflexivity.
    + rewrite IH. reflexivity.
Qed.

Lemma dict_set_fresh (d : dict) (k : string) (v : pyval) :
  lookup k d = None -> dict_set d k v = d ++ [(k, v)].
Proof.
  induction d as [ | [k' v'] d IH ]; simpl; [ reflexivity | ].
  destruct (String.eqb k k'); [ discriminate | ].
  intros H. rewrite (IH H). reflexivity.
Qed.

Lemma keys_dict_set_fresh (d : dict) (k : string) (v : pyval) :
  lookup k d = None -> keys (dict_set d k v) = keys d ++ [k].
Proof.
  intros H. rewrite (dict_set_fresh d k v H). unfold keys.
  rewrite map_app. reflexivity.
Qed.


(** ** The dispatch on the format tag *)

Lemma supported_tags_cases (tag : string) :
  In tag supported_tags ->
  tag = "md"%string \/ tag = "txt"%string \/ tag = "json"%string
  \/ tag = "srt"%string \/ tag = "vtt"%string.
Proof. simpl. intuition auto. Qed.

(** C3 (as amended): for each of the five tags other than json,
    format_result leaves the caller's dict as it was; for json the dict
    passed in holds the key generated_at with the formatting time after the
    call, and every other key keeps its value. *)
Theorem format_result_writes_only_generated_at (lib : PyLib) (now : string)
  (res : dict) (tag : string) :
  In tag supported_tags ->
  (tag <> "json"%string -> fst (format_result lib now res tag) = res)
  /\ (tag = "json"%string ->
      fst (format_result lib now res tag)
      = dict_set res "generated_at" (PStr now)
      /\ lookup "generated_at" (fst (format_result lib now res tag))
         = Some (PStr now)
      /\ forall k, k <> "generated_at"%string ->
                   lookup k (fst (format_result lib now res tag))
                   = lookup k res).
Proof.
  intros Htag.
  destruct (supported_tags_cases tag Htag) as [-> | [-> | [-> | [-> | ->]]]];
    (split; [ intros Hne; try reflexivity; congruence | intros Heq ]);
    try discriminate.
  cbn [format_result String.eqb Ascii.eqb Bool.eqb format_json fst].
  split; [ reflexivity | split ].
  - apply lookup_dict_set_eq.
  - intros k Hk. apply lookup_dict_set_neq. exact Hk.
Qed.

Lemma format_result_writes_only_generated_at_witness :
  In "json"%string supported_tags
  /\ lookup "generated_at" (fst (format_result stub_lib sample_now sample_result "json"))
     = Some (PStr sample_now)
  /\ lookup "text" (fst (format_result stub_lib sample_now sample_result "json"))
     = lookup "text" sample_result.
Proof.
  assert (Hin : In "json"%string supported_tags) by (simpl; tauto).
  split; [ exact Hin | ].
  destruct (format_result_writes_only_generated_at stub_lib sample_now
              sample_result "json" Hin) as [_ Hjson].
  destruct (Hjson eq_refl) as (_ & Hat & Hother).
  split; [ exact Hat | apply Hother; discriminate ].
Defined.

(** C3 (counterexample): formatting the sample result with the tag json
    changes the dict that was passed in. *)
Lemma format_result_json_changes_its_input :
  In "json"%string supported_tags
  /\ fst (format_result stub_lib sample_now sample_result "json")
     <> sample_result.
Proof.
  split; [ simpl; tauto | ].
  vm_compute. discriminate.
Qed.



(** ** A result without segments *)

(** C5: for a result whose segment list is empty or missing, whose text is a
    string and whose metadata is a dict with a duration that is a time (30
    when the key is missing), format_srt returns the single cue numbered 1
    that runs from 00:00:00,000 to the time code of the duration and holds
    the trimmed text, and format_vtt returns the header followed by the
    single cue from 00:00:00.000 to the time code of the duration with the
    trimmed text.  The trimmed text is the text without the white space at
    its two ends: what is taken off is white space, and what is left neither
    starts nor ends with a white-space character. *)
Theorem no_segments_single_cue (res : dict) (text : string) (md : dict) :
  dict_get res "segments" (PList []) = PList [] ->
  dict_get res "text" (PStr "") = PStr text ->
  dict_get res "metadata" (PDict []) = PDict md ->
  is_time (dict_get md "duration" (PInt 30)) ->
  exists t_srt t_vtt,
    _format_srt_time (dict_get md "duration" (PInt 30)) = Ok t_srt
    /\ _format_vtt_time (dict_get md "duration" (PInt 30)) = Ok t_vtt
    /\ format_srt res
       = Ok ("1" +:+ nl +:+ "00:00:00,000 --> " +:+ t_srt +:+ nl
             +:+ strip text +:+ nl +:+ nl)
    /\ format_vtt res
       = Ok ("WEBVTT" +:+ nl +:+ nl +:+ "00:00:00.000 --> " +:+ t_vtt +:+ nl
             +:+ strip text +:+ nl +:+ nl)
    /\ (lookup "duration" md = None ->
        t_srt = "00:00:30,000"%string /\ t_vtt = "00:00:30.000"%string)
    /\ trim_of text (strip text).
Proof.
  intros Hseg Htext Hmd Hdur.
  destruct (time_code_returns "," _ Hdur) as (t_srt & Hs).
  destruct (time_code_returns "." _ Hdur) as (t_vtt & Hv).
  rewrite <- format_srt_time_code in Hs. rewrite <- format_vtt_time_code in Hv.
  exists t_srt, t_vtt.
  split; [ exact Hs | split; [ exact Hv | ] ].
  unfold format_srt, format_vtt. rewrite Hseg, Htext, Hmd.
  cbn [truthy negb py_strip py_get]. run. rewrite Hs, Hv.
  split; [ reflexivity | split; [ reflexivity | ] ].
  split; [ | apply strip_trim_of ].
  intros Hnone. unfold dict_get in Hs, Hv. rewrite Hnone in Hs, Hv.
  vm_compute in Hs, Hv. split; congruence.
Qed.

Lemma no_segments_single_cue_witness :
  (format_srt single_line_result
   = Ok ("1" +:+ nl +:+ "00:00:00,000 --> 00:00:10,000" +:+ nl
         +:+ "Single line transcription" +:+ nl +:+ nl)%string
   /\ format_vtt single_line_result
      = Ok ("WEBVTT" +:+ nl +:+ nl +:+ "00:00:00.000 --> 00:00:10.000" +:+ nl
            +:+ "Single line transcription" +:+ nl +:+ nl)%string)
  /\ (format_srt padded_result
      = Ok ("1" +:+ nl +:+ "00:00:00,000 --> 00:00:30,000" +:+ nl
            +:+ "Hello world" +:+ nl +:+ nl)%string
      /\ format_vtt padded_result
         = Ok ("WEBVTT" +:+ nl +:+ nl +:+ "00:00:00.000 --> 00:00:30.000"
               +:+ nl +:+ "Hello world" +:+ nl +:+ nl)%string
      /\ trim_of padded_text "Hello world").
Proof.
  assert (Hstrip : strip padded_text = "Hello world"%string)
    by (vm_compute; reflexivity).
  split; [ | destruct (no_segments_single_cue padded_result padded_text [])
               as (t_srt & t_vtt & _ & _ & Hsrt & Hvtt & H30 & Htrim);
             [ reflexivity | reflexivity | reflexivity
             | vm_compute; reflexivity | ];
             destruct (H30 eq_refl) as [-> ->];
             rewrite Hstrip in Hsrt, Hvtt, Htrim;
             split; [ exact Hsrt | split; [ exact Hvtt | exact Htrim ] ] ].
  destruct (no_segments_single_cue single_line_result
              "Single line transcription"
              [("duration", PFloat (of_decimal 100 1))]%string)
    as (t_srt & t_vtt & Hs & Hv & Hsrt & Hvtt & _);
    [ reflexivity | reflexivity | reflexivity | | ].
  - vm_compute. reflexivity.
  - match type of Hs with
    | ?l = _ =>
        assert (Es : l = Ok "00:00:10,000"%string) by (vm_compute; reflexivity)
    end.
    match type of Hv with
    | ?l = _ =>
        assert (Ev : l = Ok "00:00:10.000"%string) by (vm_compute; reflexivity)
    end.
    rewrite Es in Hs. rewrite Ev in Hv.
    injection Hs as <-. injection Hv as <-.
    rewrite Hsrt, Hvtt. split; reflexivity.
Defined.

(** ** The output path *)

(** C7: when both an output file and a single audio file are configured,
    get_output_path returns the output file, whatever the format tag and the
    output folder; otherwise, when an output folder is configured, it returns
    the folder joined with the stem of the source, "_transcription." and the
    extension of the tag; otherwise it returns the parent of the source
    joined with that file name. *)
Theorem get_output_path_precedence (config : TranscriptionConfig)
  (audio_path : path) (tag : string) :
  let output_filename :=
    stem audio_path +:+ "_transcription." +:+ _get_extension_for_format tag in
  (forall tf af,
      transcription_file config = Some tf -> audio_file config = Some af ->
      get_output_path config audio_path tag = tf)
  /\ (forall folder,
         transcription_file config = None \/ audio_file config = None ->
         transcribe_folder config = Some folder ->
         get_output_path config audio_path tag
         = path_div folder output_filename)
  /\ (transcription_file config = None \/ audio_file config = None ->
      transcribe_folder config = None ->
      get_output_path config audio_path tag
      = path_div (parent audio_path) output_filename).
Proof.
  unfold get_output_path. cbv zeta.
  split; [ | split ].
  - intros tf af -> ->. reflexivity.
  - intros folder Hnone ->.
    destruct (transcription_file config), (audio_file config);
      try reflexivity.
    destruct Hnone; discriminate.
  - intros Hnone ->.
    destruct (transcription_file config), (audio_file config);
      try reflexivity.
    destruct Hnone; discriminate.
Qed.

Lemma get_output_path_precedence_witness :
  get_output_path
    {| audio_file := Some (parse_path "/tmp/test.mp3");
       audio_folder := None;
       transcribe_folder := Some (parse_path "/tmp/transcriptions");
       transcription_file := Some (parse_path "custom_output.md");
       recursive := false; batch_size := 1 |}
    (parse_path "/tmp/test.mp3") "json"
  = parse_path "custom_output.md"
  /\ get_output_path
       {| audio_file := Some (parse_path "/tmp/test.mp3");
          audio_folder := None;
          transcribe_folder := Some (parse_path "/tmp/transcriptions");
          transcription_file := None;
          recursive := false; batch_size := 1 |}
       (parse_path "/tmp/test.mp3") "json"
     = parse_path "/tmp/transcriptions/test_transcription.json"
  /\ get_output_path
       {| audio_file := Some (parse_path "/tmp/test.mp3");
          audio_folder := None;
          transcribe_folder := None;
          transcription_file := None;
          recursive := false; batch_size := 1 |}
       (parse_path "/tmp/test.mp3") "md"
     = parse_path "/tmp/test_transcription.md".
Proof.
  split; [ | split ].
  - destruct (get_output_path_precedence
                {| audio_file := Some (parse_path "/tmp/test.mp3");
                   audio_folder := None;
                   transcribe_folder := Some (parse_path "/tmp/transcriptions");
                   transcription_file := Some (parse_path "custom_output.md");
                   recursive := false; batch_size := 1 |}
                (parse_path "/tmp/test.mp3") "json") as (H & _ & _).
    exact (H _ _ eq_refl eq_refl).
  - destruct (get_output_path_precedence
                {| audio_file := Some (parse_path "/tmp/test.mp3");
                   audio_folder := None;
                   transcribe_folder := Some (parse_path "/tmp/transcriptions");
                   transcription_file := None;
                   recursive := false; batch_size := 1 |}
                (parse_path "/tmp/test.mp3") "json") as (_ & H & _).
    rewrite (H _ (or_introl eq_refl) eq_refl). vm_compute. reflexivity.
  - destruct (get_output_path_precedence
                {| audio_file := Some (parse_path "/tmp/test.mp3");
                   audio_folder := None;
                   transcribe_folder := None;
                   transcription_file := None;
                   recursive := false; batch_size := 1 |}
                (parse_path "/tmp/test.mp3") "md") as (_ & _ & H).
    rewrite (H (or_introl eq_refl) eq_refl). vm_compute. reflexivity.
Defined.

(** ** Unsupported tags *)

Lemma eqb_tag_false (tag t : string) :
  ~ In tag supported_tags -> In t supported_tags -> String.eqb tag t = false.
Proof.
  intros Hout Hin. apply String.eqb_neq. intros ->. exact (Hout Hin).
Qed.

(** C9: for a tag that is none of md, txt, json, srt and vtt, format_result
    raises ValueError with the message "Unsupported output format: " followed
    by the tag, while _get_extension_for_format returns txt; for each of the
    five tags _get_extension_for_format returns the tag itself. *)
Theorem unsupported_tag_raises_but_maps_to_txt (lib : PyLib) (now : string)
  (res : dict) (tag : string) :
  (~ In tag supported_tags ->
   snd (format_result lib now res tag)
   = Raise (ValueError ("Unsupported output format: " +:+ tag))
   /\ _get_extension_for_format tag = "txt"%string)
  /\ (In tag supported_tags -> _get_extension_for_format tag = tag).
Proof.
  split.
  - intros Hout. unfold format_result, _get_extension_for_format.
    rewrite !(eqb_tag_false tag) by (assumption || (simpl; tauto)).
    split; reflexivity.
  - intros Hin.
    destruct (supported_tags_cases tag Hin) as [-> | [-> | [-> | [-> | ->]]]];
      reflexivity.
Qed.

Lemma unsupported_tag_raises_but_maps_to_txt_witness :
  snd (format_result stub_lib sample_now sample_result "invalid")
  = Raise (ValueError "Unsupported output format: invalid")
  /\ _get_extension_for_format "invalid" = "txt"%string
  /\ _get_extension_for_format "vtt" = "vtt"%string.
Proof.
  destruct (unsupported_tag_raises_but_maps_to_txt stub_lib sample_now
              sample_result "invalid") as [Hout _].
  destruct (unsupported_tag_raises_but_maps_to_txt stub_lib sample_now
              sample_result "vtt") as [_ Hin].
  destruct Hout as [Hr He].
  - simpl. intros H. repeat destruct H as [H | H]; try discriminate. exact H.
  - split; [ exact Hr | split; [ exact He | ] ].
    apply Hin. simpl. tauto.
Defined.

(** ** Batches *)

Section Batches.

Context {A : Type}.

Lemma firstn_plus (n m : nat) (l : list A) :
  firstn (n + m) l = firstn n l ++ firstn m (skipn n l).
Proof.
  revert l. induction n as [ | n IH ]; intros l; [ reflexivity | ].
  destruct l as [ | x l ]; simpl.
  - rewrite firstn_nil. reflexivity.
  - rewrite IH. reflexivity.
Qed.

Lemma firstn_clamp (a : nat) (l : list A) :
  firstn (Nat.min a (List.length l)) l = firstn a l.
Proof.
  rewrite <- firstn_firstn. rewrite firstn_all. reflexivity.
Qed.

(** A slice that starts inside the list is a chunk of the list. *)
Lemma py_slice_chunk (l : list A) (lo w : Z) :
  0 <= lo <= Z.of_nat (List.length l) -> 0 <= w ->
  py_slice l lo (lo + w) = firstn (Z.to_nat w) (skipn (Z.to_nat lo) l).
Proof.
  intros Hlo Hw. unfold py_slice.
  replace (lo <? 0) with false by (symmetry; apply Z.ltb_ge; lia).
  replace (lo + w <? 0) with false by (symmetry; apply Z.ltb_ge; lia).
  rewrite (Z.min_l lo) by lia.
  rewrite <- (firstn_clamp (Z.to_nat w)). f_equal.
  rewrite length_skipn. lia.
Qed.

(** The first [k] groups of [b] consecutive items make up the first [k * b]
    items. *)
Lemma concat_chunks (b : nat) (l : list A) (k : nat) :
  List.concat (map (fun j => firstn b (skipn (j * b) l)) (seq 0 k))
  = firstn (k * b) l.
Proof.
  induction k as [ | k IH ]; [ reflexivity | ].
  rewrite seq_S, map_app, concat_app, IH. simpl.
  rewrite app_nil_r.
  rewrite <- firstn_plus. f_equal. lia.
Qed.

Lemma length_chunk (b : nat) (l : list A) (j : nat) :
  List.length (firstn b (skipn (j * b) l))
  = Nat.min b (List.length l - j * b).
Proof. rewrite length_firstn, length_skipn. reflexivity. Qed.

End Batches.

(** The batches are the chunks numbered below the ceiling of [n / b]. *)
Lemma batch_files_chunks (config : TranscriptionConfig) (files : list path) :
  1 <= batch_size config ->
  batch_files config files
  = Ok (map (fun j => firstn (Z.to_nat (batch_size config))
                        (skipn (j * Z.to_nat (batch_size config)) files))
          (seq 0 (Z.to_nat ((Z.of_nat (List.length files)
                             + batch_size config - 1) / batch_size config)))).
Proof.
  intros Hbs. unfold batch_files, py_range. cbv zeta.
  replace (batch_size config =? 0) with false
    by (symmetry; apply Z.eqb_neq; lia).
  replace (0 <? batch_size config) with true
    by (symmetry; apply Z.ltb_lt; lia).
  run. rewrite Z.sub_0_r. f_equal. rewrite map_map. apply map_ext_in.
  intros j Hj. apply in_seq in Hj.
  set (n := Z.of_nat (List.length files)) in *.
  set (bs := batch_size config) in *.
  assert (Hk : Z.of_nat j < (n + bs - 1) / bs) by lia.
  assert (Hjn : Z.of_nat j * bs < n).
  { pose proof (Z.div_mod (n + bs - 1) bs ltac:(lia)).
    pose proof (Z.mod_pos_bound (n + bs - 1) bs ltac:(lia)). nia. }
  rewrite py_slice_chunk by (fold n; lia).
  f_equal. f_equal. lia.
Qed.

(** C6: for a batch size of at least 1, batch_files yields ceil(N /
    batch_size) groups whose concatenation in order is the input list; every
    group but the last has batch_size files, and the last has the remaining
    ones, at least 1 and at most batch_size.  For no file it yields no
    group. *)
Theorem batch_files_partition (config : TranscriptionConfig)
  (files : list path) :
  1 <= batch_size config ->
  let n := Z.of_nat (List.length files) in
  let bs := batch_size config in
  exists batches,
    batch_files config files = Ok batches
    /\ List.concat batches = files
    /\ Z.of_nat (List.length batches) = (n + bs - 1) / bs
    /\ (files <> [] ->
        exists init last_batch,
          batches = init ++ [last_batch]
          /\ Forall (fun g => Z.of_nat (List.length g) = bs) init
          /\ 1 <= Z.of_nat (List.length last_batch) <= bs
          /\ Z.of_nat (List.length last_batch)
             = n - bs * Z.of_nat (List.length init)).
Proof.
  intros Hbs n bs.
  rewrite (batch_files_chunks config files Hbs). fold n bs.
  set (b := Z.to_nat bs).
  set (k := Z.to_nat ((n + bs - 1) / bs)).
  assert (Hb : Z.of_nat b = bs) by (unfold b; lia).
  pose proof (Z.div_mod (n + bs - 1) bs ltac:(lia)) as Hdm.
  pose proof (Z.mod_pos_bound (n + bs - 1) bs ltac:(lia)) as Hmb.
  assert (Hq : 0 <= (n + bs - 1) / bs) by (apply Z.div_pos; lia).
  assert (Hk : Z.of_nat k = (n + bs - 1) / bs) by (unfold k; lia).
  assert (Hcover : (List.length files <= k * b)%nat) by (unfold n in *; nia).
  eexists. split; [ reflexivity | split; [ | split ] ].
  - rewrite concat_chunks. apply firstn_all2. exact Hcover.
  - rewrite length_map, length_seq. exact Hk.
  - intros Hne.
    assert (Hn : 0 < n) by (unfold n; destruct files; simpl; [ congruence | lia ]).
    destruct k as [ | k' ]; [ nia | ].
    rewrite seq_S, map_app. simpl.
    eexists. eexists. split; [ reflexivity | ].
    rewrite length_map, length_seq.
    assert (Hlast : (k' * b < List.length files)%nat) by (unfold n in *; nia).
    split; [ | split ].
    + apply Forall_forall. intros g Hg. apply in_map_iff in Hg.
      destruct Hg as (j & <- & Hj). apply in_seq in Hj.
      rewrite length_chunk. unfold n in *. nia.
    + rewrite length_chunk. unfold n in *. lia.
    + rewrite length_chunk. unfold n in *. nia.
Qed.

Lemma batch_files_partition_witness :
  exists batches,
    batch_files
      {| audio_file := None; audio_folder := None; transcribe_folder := None;
         transcription_file := None; recursive := false; batch_size := 2 |}
      (map parse_path ["f0.mp3"; "f1.mp3"; "f2.mp3"; "f3.mp3"; "f4.mp3"]%string)
    = Ok batches
    /\ map (@List.length path) batches = [2; 2; 1]%nat
    /\ List.concat batches
       = map parse_path ["f0.mp3"; "f1.mp3"; "f2.mp3"; "f3.mp3"; "f4.mp3"]%string.
Proof.
  destruct (batch_files_partition
              {| audio_file := None; audio_folder := None;
                 transcribe_folder := None; transcription_file := None;
                 recursive := false; batch_size := 2 |}
              (map parse_path
                 ["f0.mp3"; "f1.mp3"; "f2.mp3"; "f3.mp3"; "f4.mp3"]%string))
    as (batches & Hb & Hc & _); [ simpl; lia | ].
  exists batches. split; [ exact Hb | split; [ | exact Hc ] ].
  vm_compute in Hb. injection Hb as <-. reflexivity.
Defined.

(** ** Sorting of paths *)

Lemma parts_leb_total (a : list string) :
  forall b, parts_leb a b = false -> parts_leb b a = true.
Proof.
  induction a as [ | x a IH ]; intros [ | y b ]; simpl; try discriminate;
    try reflexivity.
  rewrite (String.compare_antisym y x).
  destruct (String.compare x y); simpl; try discriminate; try reflexivity.
  apply IH.
Qed.

Lemma path_leb_total (p q : path) : path_leb p q = false -> path_le q p.
Proof. apply parts_leb_total. Qed.

Lemma insert_path_perm (p : path) (l : list path) :
  Permutation (insert_path p l) (p :: l).
Proof.
  induction l as [ | q l IH ]; simpl; [ apply Permutation_refl | ].
  destruct (path_leb q p).
  - eapply perm_trans; [ apply perm_skip; exact IH | apply perm_swap ].
  - apply Permutation_refl.
Qed.

Lemma sorted_perm (l : list path) : Permutation (sorted l) l.
Proof.
  induction l as [ | p l IH ]; simpl; [ apply perm_nil | ].
  eapply perm_trans; [ apply insert_path_perm | apply perm_skip; exact IH ].
Qed.

Lemma insert_path_hd (p q : path) (l : list path) :
  path_le q p -> HdRel path_le q l -> HdRel path_le q (insert_path p l).
Proof.
  intros Hqp Hl. destruct l as [ | r l ]; simpl.
  - constructor. exact Hqp.
  - destruct (path_leb r p); constructor; [ | exact Hqp ].
    inversion Hl; assumption.
Qed.

Lemma insert_path_sorted (p : path) (l : list path) :
  Sorted path_le l -> Sorted path_le (insert_path p l).
Proof.
  induction l as [ | q l IH ]; intros Hs; simpl.
  - repeat constructor.
  - inversion Hs as [ | ? ? Hl Hhd ]; subst.
    destruct (path_leb q p) eqn:E.
    + constructor; [ apply IH; exact Hl | ].
      apply insert_path_hd; assumption.
    + constructor; [ exact Hs | ].
      constructor. apply path_leb_total. exact E.
Qed.

Lemma sorted_sorted (l : list path) : Sorted path_le (sorted l).
Proof.
  induction l as [ | p l IH ]; simpl; [ constructor | ].
  apply insert_path_sorted. exact IH.
Qed.

(** ** The entries below a folder *)

Lemma walk_dir (p : path) (children : list (string * entry)) :
  walk p (Dir children)
  = flat_map (fun c => (path_div p (fst c), snd c)
                         :: walk (path_div p (fst c)) (snd c)) children.
Proof.
  induction children as [ | [nm c] rest IH ]; [ reflexivity | ].
  simpl in *. rewrite IH. reflexivity.
Qed.

Lemma listdir_child (p : path) (e : entry) (q : path) (c : entry) :
  In (q, c) (listdir p e) <-> child_of p e q c.
Proof.
  split.
  - destruct e as [ | children | ]; simpl; try tauto.
    intros H. apply in_map_iff in H. destruct H as ([nm c'] & Heq & Hin).
    simpl in Heq. injection Heq as <- <-. constructor. exact Hin.
  - intros [children nm c' Hin]. simpl. apply in_map_iff.
    exists (nm, c'). split; [ reflexivity | exact Hin ].
Qed.

Lemma below_walk (p : path) (e : entry) (q : path) (c : entry) :
  below p e q c -> In (q, c) (walk p e).
Proof.
  induction 1 as [ p e q c Hc | p e q c q' c' Hc _ IH ].
  - destruct Hc as [children nm c Hin]. rewrite walk_dir.
    apply in_flat_map. exists (nm, c). split; [ exact Hin | left; reflexivity ].
  - destruct Hc as [children nm c Hin]. rewrite walk_dir.
    apply in_flat_map. exists (nm, c). split; [ exact Hin | right; exact IH ].
Qed.

(** Induction on an entry, with the hypothesis for every child of a
    directory. *)
Lemma entry_nested_ind (P : entry -> Prop) :
  P File -> P Other ->
  (forall children, Forall (fun c => P (snd c)) children -> P (Dir children)) ->
  forall e, P e.
Proof.
  intros HF HO HD.
  refine (fix IH (e : entry) : P e :=
            match e with
            | File => HF
            | Other => HO
            | Dir children =>
                HD children
                  ((fix go (cs : list (string * entry))
                      : Forall (fun c => P (snd c)) cs :=
                      match cs with
                      | [] => Forall_nil _
                      | (nm, c) :: rest =>
                          Forall_cons (nm, c) (IH c) (go rest)
                      end) children)
            end).
Qed.

Lemma walk_below (e : entry) :
  forall (p q : path) (c : entry), In (q, c) (walk p e) -> below p e q c.
Proof.
  induction e as [ | | children IH ] using entry_nested_ind;
    intros p q c Hin; try contradiction.
  rewrite walk_dir in Hin. apply in_flat_map in Hin.
  destruct Hin as ([nm c0] & Hc0 & Hin). simpl in Hin.
  assert (Hchild : child_of p (Dir children) (path_div p nm) c0)
    by (constructor; exact Hc0).
  destruct Hin as [Heq | Hin].
  - injection Heq as <- <-. apply below_child. exact Hchild.
  - eapply below_deeper; [ exact Hchild | ].
    rewrite Forall_forall in IH. exact (IH (nm, c0) Hc0 _ _ _ Hin).
Qed.

Lemma glob_spec (p : path) (e : entry) (rec : bool) (q : path) (c : entry) :
  In (q, c) (glob p e rec)
  <-> (if rec then below p e q c else child_of p e q c).
Proof.
  unfold glob. destruct rec.
  - split; [ apply walk_below | apply below_walk ].
  - apply listdir_child.
Qed.

(** ** Discovery *)

Lemma lower_plain (c : ascii) (s : string) :
  (nat_of_ascii c < 128)%nat ->
  lower (String c s) = String (lower_char c) (lower s).
Proof.
  intros Hc. destruct s as [ | b [ | d s ] ]; try reflexivity.
  cbn [lower]. unfold kelvin.
  replace (nat_of_ascii c =? 226)%nat with false
    by (symmetry; apply Nat.eqb_neq; lia).
  reflexivity.
Qed.

Lemma capital_plain (c : ascii) :
  (nat_of_ascii c < 128)%nat -> lower_char c = c ->
  (nat_of_ascii (capital c) < 128)%nat /\ lower_char (capital c) = c.
Proof.
  destruct c as [[] [] [] [] [] [] [] []]; vm_compute; intros H E;
    first [ split; [ lia | reflexivity ] | discriminate E | lia ].
Qed.

(** A name that spells an ASCII string without capitals has it as its
    lower-case form. *)
Lemma lower_spells (s t : string) :
  spells s t -> small t = true -> lower s = t.
Proof.
  induction 1 as [ | c s t _ IH | c s t _ IH | s t _ IH ]; intros Ht.
  - reflexivity.
  - cbn [small] in Ht. apply andb_true_iff in Ht as [Ht Ht'].
    apply andb_true_iff in Ht as [Hc Hl].
    apply Nat.ltb_lt in Hc. apply Ascii.eqb_eq in Hl.
    rewrite (lower_plain c s Hc), Hl, (IH Ht'). reflexivity.
  - cbn [small] in Ht. apply andb_true_iff in Ht as [Ht Ht'].
    apply andb_true_iff in Ht as [Hc Hl].
    apply Nat.ltb_lt in Hc. apply Ascii.eqb_eq in Hl.
    destruct (capital_plain c Hc Hl) as [Hc' Hl'].
    rewrite (lower_plain _ s Hc'), Hl', (IH Ht'). reflexivity.
  - cbn [small] in Ht. apply andb_true_iff in Ht as [_ Ht'].
    rewrite <- (IH Ht'). reflexivity.
Qed.

Lemma supported_extensions_small (ext : string) :
  In ext supported_extensions -> small ext = true.
Proof.
  unfold supported_extensions.
  repeat (intros [<- | H]; [ reflexivity | revert H ]). intros [].
Qed.

(** C8: for a directory source, discover_audio_files returns the paths of
    the entries that are files and whose lower-cased suffix is one of the
    audio extensions, taken among the entries directly in the folder when the
    search is not recursive and among all entries below it when it is; the
    list is sorted by the order of paths and holds each such entry once.  In
    particular a file is returned when its suffix spells an audio extension
    with any of the letters as capitals. *)
Theorem discovery_is_filtered_and_sorted (config : TranscriptionConfig)
  (folder : path) (tree : entry) :
  audio_file config = None ->
  audio_folder config = Some folder ->
  exists found,
    discover_audio_files config tree = Ok found
    /\ Sorted path_le found
    /\ (forall q,
          In q found
          <-> exists c,
              (if recursive config then below folder tree q c
               else child_of folder tree q c)
              /\ is_file c = true
              /\ mem (lower (suffix q)) supported_extensions = true)
    /\ Permutation found
         (map fst
            (filter (fun pe => is_file (snd pe) && _is_audio_file (fst pe))
               (glob folder tree (recursive config))))
    /\ (forall q c ext,
          (if recursive config then below folder tree q c
           else child_of folder tree q c) ->
          is_file c = true ->
          In ext supported_extensions ->
          spells (suffix q) ext ->
          In q found).
Proof.
  intros Hfile Hfolder. unfold discover_audio_files.
  rewrite Hfile, Hfolder. eexists. split; [ reflexivity | ].
  unfold _find_audio_files. cbv zeta.
  split; [ apply sorted_sorted | ].
  assert (Hiff : forall q,
    In q (sorted (map fst
            (filter (fun pe => is_file (snd pe) && _is_audio_file (fst pe))
               (glob folder tree (recursive config)))))
    <-> exists c,
        (if recursive config then below folder tree q c
         else child_of folder tree q c)
        /\ is_file c = true
        /\ mem (lower (suffix q)) supported_extensions = true).
  { intros q. split.
    - intros Hin.
      apply (Permutation_in _ (sorted_perm _)) in Hin.
      apply in_map_iff in Hin. destruct Hin as ([q' c] & Heq & Hin).
      simpl in Heq. subst q'. apply filter_In in Hin.
      destruct Hin as [Hglob Htest]. simpl in Htest.
      apply andb_prop in Htest. destruct Htest as [Hf Ha].
      exists c. split; [ apply glob_spec; exact Hglob | split; assumption ].
    - intros (c & Hrel & Hf & Ha).
      apply (Permutation_in _ (Permutation_sym (sorted_perm _))).
      apply in_map_iff. exists (q, c). split; [ reflexivity | ].
      apply filter_In. split; [ apply glob_spec; exact Hrel | ].
      simpl. unfold _is_audio_file. rewrite Hf, Ha. reflexivity. }
  split; [ exact Hiff | split; [ apply sorted_perm | ] ].
  intros q c ext Hrel Hf Hext Hsp. apply Hiff.
  exists c. split; [ exact Hrel | split; [ exact Hf | ] ].
  rewrite (lower_spells _ _ Hsp (supported_extensions_small _ Hext)).
  unfold mem. apply existsb_exists. exists ext.
  split; [ exact Hext | apply String.eqb_refl ].
Qed.

Lemma discovery_is_filtered_and_sorted_witness :
  (exists found,
      discover_audio_files (folder_config (parse_path "/data") false)
        sample_tree = Ok found
      /\ Sorted path_le found
      /\ found = [parse_path "/data/a.mp3"; parse_path "/data/b.wav"])
  /\ (exists found,
         discover_audio_files (folder_config (parse_path "/data") true)
           sample_tree = Ok found
         /\ Sorted path_le found
         /\ found = [parse_path "/data/a.mp3"; parse_path "/data/b.wav";
                     parse_path "/data/sub/d.m4a"])
  /\ (exists found,
         discover_audio_files (folder_config (parse_path "/data") true)
           mixed_case_tree = Ok found
         /\ Sorted path_le found
         /\ found = [parse_path "/data/B.WAV"; parse_path "/data/SUB/D.M4A";
                     parse_path "/data/a.Mp3";
                     parse_path ("/data/k.M" +:+ bytes [226; 132; 170]%nat
                                 +:+ "V")]
         /\ In (parse_path "/data/B.WAV") found).
Proof.
  split; [ | split ].
  - destruct (discovery_is_filtered_and_sorted
                (folder_config (parse_path "/data") false)
                (parse_path "/data") sample_tree eq_refl eq_refl)
      as (found & Hd & Hs & _).
    exists found. split; [ exact Hd | split; [ exact Hs | ] ].
    vm_compute in Hd. injection Hd as <-. reflexivity.
  - destruct (discovery_is_filtered_and_sorted
                (folder_config (parse_path "/data") true)
                (parse_path "/data") sample_tree eq_refl eq_refl)
      as (found & Hd & Hs & _).
    exists found. split; [ exact Hd | split; [ exact Hs | ] ].
    vm_compute in Hd. injection Hd as <-. reflexivity.
  - destruct (discovery_is_filtered_and_sorted
                (folder_config (parse_path "/data") true)
                (parse_path "/data") mixed_case_tree eq_refl eq_refl)
      as (found & Hd & Hs & _ & _ & Hcase).
    exists found. split; [ exact Hd | split; [ exact Hs | ] ].
    split; [ vm_compute in Hd; injection Hd as <-; reflexivity | ].
    apply (Hcase (parse_path "/data/B.WAV") File ".wav"%string).
    + assert (E : parse_path "/data/B.WAV"
                  = path_div (parse_path "/data") "B.WAV") by reflexivity.
      cbn [recursive folder_config]. rewrite E. unfold mixed_case_tree.
      apply below_child. apply child_intro. simpl. tauto.
    + reflexivity.
    + simpl. tauto.
    + change (suffix (parse_path "/data/B.WAV")) with ".WAV"%string.
      apply spells_same.
      apply (spells_capital "w"). apply (spells_capital "a").
      apply (spells_capital "v"). constructor.
Defined.

(** ** Missing keys and their defaults *)

Lemma lookup_dict_set (d : dict) (k k' : string) (v : pyval) :
  lookup k' (dict_set d k v)
  = if String.eqb k' k then Some v else lookup k' d.
Proof.
  destruct (String.eqb k' k) eqn:E.
  - apply String.eqb_eq in E. subst k'. apply lookup_dict_set_eq.
  - apply String.eqb_neq in E. apply lookup_dict_set_neq. exact E.
Qed.


Lemma dict_get_dict_set (d : dict) (k k' : string) (v x : pyval) :
  dict_get (dict_set d k v) k' x
  = if String.eqb k' k then v else dict_get d k' x.
Proof.
  unfold dict_get. rewrite lookup_dict_set.
  destruct (String.eqb k' k); reflexivity.
Qed.

















(** ** Shaped results are formatted without an exception *)

Lemma absent_or_get (P : pyval -> bool) (d : dict) (k : string)
  (default : pyval) :
  absent_or P d k = true -> P default = true ->
  P (dict_get d k default) = true.
Proof.
  unfold absent_or, dict_get. destruct (lookup k d); auto.
Qed.

Lemma is_str_strip (v : pyval) :
  is_str v = true -> exists s, py_strip v = Ok s.
Proof. destruct v; try discriminate. simpl. eauto. Qed.

Lemma representable_max : representable (max_int * unit).
Proof. apply representableb_sound. vm_compute. reflexivity. Qed.

Lemma py_format_2f_returns (v : pyval) :
  is_time v -> exists s, py_format_2f v = Ok s.
Proof.
  unfold is_time.
  destruct v as [ | | z | [ | | [ | ] n ] | | | ]; simpl; try discriminate;
    intros Hv.
  - apply andb_prop in Hv. destruct Hv as [H0 H1].
    apply Z.leb_le in H0. apply Z.leb_le in H1.
    unfold py_format_2f, as_num, to_float, of_Z. run.
    replace (z <? 0) with false by (symmetry; apply Z.ltb_ge; lia).
    rewrite Z.abs_eq by lia.
    destruct (round_ne_le false (z * unit) 1 (max_int * unit))
      as (k & -> & _).
    + pose proof unit_pos. nia.
    + lia.
    + exact representable_max.
    + pose proof unit_pos. nia.
    + eauto.
  - unfold py_format_2f, as_num, to_float. run. eauto.
Qed.

Lemma is_time_0 : is_timeb (PInt 0) = true.
Proof. vm_compute. reflexivity. Qed.

Lemma is_time_30 : is_timeb (PInt 30) = true.
Proof. vm_compute. reflexivity. Qed.

Lemma is_str_empty : is_str (PStr "") = true.
Proof. reflexivity. Qed.

Lemma shaped_segment_returns (segment : pyval) :
  shaped_segment segment = true ->
  (forall i content, returns (srt_cue i segment content))
  /\ (forall content, returns (vtt_cue segment content))
  /\ (forall i content, returns (md_entry i segment content)).
Proof.
  destruct segment as [ | | | | | | d ]; try discriminate. simpl.
  intros H. apply andb_prop in H. destruct H as [H Htext].
  apply andb_prop in H. destruct H as [Hstart Hend].
  apply (absent_or_get _ _ _ (PInt 0)) in Hstart; [ | exact is_time_0 ].
  apply (absent_or_get _ _ _ (PInt 0)) in Hend; [ | exact is_time_0 ].
  apply (absent_or_get _ _ _ (PStr "")) in Htext; [ | exact is_str_empty ].
  destruct (is_str_strip _ Htext) as (tx & Htx).
  destruct (time_code_returns "," _ Hstart) as (s1 & Hs1).
  destruct (time_code_returns "," _ Hend) as (e1 & He1).
  destruct (time_code_returns "." _ Hstart) as (s2 & Hs2).
  destruct (time_code_returns "." _ Hend) as (e2 & He2).
  destruct (py_format_2f_returns _ Hstart) as (s3 & Hs3).
  destruct (py_format_2f_returns _ Hend) as (e3 & He3).
  unfold returns, srt_cue, vtt_cue, md_entry, py_get.
  split; [ | split ]; intros; run.
  - rewrite !format_srt_time_code, Hs1, He1, Htx. eauto.
  - rewrite !format_vtt_time_code, Hs2, He2, Htx. eauto.
  - rewrite Htx, Hs3, He3. eauto.
Qed.

Lemma shaped_segments_loops (l : list pyval) :
  forallb shaped_segment l = true ->
  (forall i content, returns (srt_loop i l content))
  /\ (forall content, returns (vtt_loop l content))
  /\ (forall i content, returns (md_loop i l content)).
Proof.
  induction l as [ | s l IH ]; simpl.
  - intros _. unfold returns. repeat split; intros; eauto.
  - intros H. apply andb_prop in H. destruct H as [Hs Hl].
    destruct (IH Hl) as (IH1 & IH2 & IH3).
    destruct (shaped_segment_returns s Hs) as (H1 & H2 & H3).
    split; [ | split ]; intros.
    + destruct (H1 i content) as (c & ->). apply IH1.
    + destruct (H2 content) as (c & ->). apply IH2.
    + destruct (H3 i content) as (c & ->). apply IH3.
Qed.

Lemma md_entry_appends (i : Z) (segment : pyval) (content : string) :
  md_entry i segment content
  = (e <- md_entry i segment EmptyString ;; Ok (content +:+ e)).
Proof.
  unfold md_entry. run. repeat step. reflexivity.
Qed.

Lemma md_loop_cues (segments : list pyval) :
  forall (i : Z) (content : string),
    md_loop i segments content
    = (r <- cues (fun j s => md_entry j s EmptyString) i segments ;;
       Ok (content +:+ r)).
Proof.
  induction segments as [ | segment rest IH ]; intros i content; simpl.
  - rewrite append_nil_r. reflexivity.
  - rewrite md_entry_appends.
    destruct (md_entry i segment EmptyString) as [e | x]; simpl;
      [ | reflexivity ].
    rewrite IH.
    destruct (cues _ (i + 1) rest) as [r | x]; simpl; [ | reflexivity ].
    rewrite append_assoc. reflexivity.
Qed.







(** * Further properties of the formatters *)

(** ** JSON formatting and the other formatters *)

Lemma dict_get_generated_at (res : dict) (now k : string) (d : pyval) :
  k <> "generated_at"%string ->
  dict_get (dict_set res "generated_at" (PStr now)) k d = dict_get res k d.
Proof.
  intros Hk. rewrite dict_get_dict_set.
  apply String.eqb_neq in Hk. rewrite Hk. reflexivity.
Qed.

(** X1: the key that format_json writes into the caller's dict is not read
    by the other formatters: after a result was formatted as JSON, the
    Markdown, text, SRT and VTT formatters return for it what they return
    for the result as it was before. *)
Theorem format_json_leaves_other_formats (lib : PyLib) (now now' : string)
  (res : dict) :
  let res' := fst (format_json lib now res) in
  format_markdown lib now' res' = format_markdown lib now' res
  /\ format_text lib now' res' = format_text lib now' res
  /\ format_srt res' = format_srt res
  /\ format_vtt res' = format_vtt res.
Proof.
  cbn [format_json fst].
  unfold format_markdown, format_text, format_srt, format_vtt. cbv zeta.
  rewrite !dict_get_generated_at by discriminate.
  repeat split; reflexivity.
Qed.

Lemma keys_dict_set_present (d : dict) (k : string) (v : pyval) :
  lookup k d <> None -> keys (dict_set d k v) = keys d.
Proof.
  induction d as [ | [k' v'] d IH ]; simpl; [ congruence | ].
  destruct (String.eqb k k') eqn:E; simpl; intros H.
  - reflexivity.
  - rewrite (IH H). reflexivity.
Qed.

(** X2: formatting the same dict as JSON again replaces the value of
    generated_at and adds no key: after the first call the keys of the dict
    stay the same however often it is formatted, and the dict holds the time
    of the last call. *)
Theorem format_json_again_adds_no_key (lib : PyLib) (now1 now2 : string)
  (res : dict) :
  let res1 := fst (format_json lib now1 res) in
  let res2 := fst (format_json lib now2 res1) in
  keys res2 = keys res1
  /\ lookup "generated_at" res2 = Some (PStr now2)
  /\ (forall k, k <> "generated_at"%string -> lookup k res2 = lookup k res)
  /\ (List.length (keys res1) <= S (List.length (keys res)))%nat.
Proof.
  cbn [format_json fst]. split; [ | split; [ | split ] ].
  - apply keys_dict_set_present. rewrite lookup_dict_set_eq. discriminate.
  - apply lookup_dict_set_eq.
  - intros k Hk. rewrite !lookup_dict_set_neq by exact Hk. reflexivity.
  - destruct (lookup "generated_at" res) eqn:E.
    + rewrite keys_dict_set_present by congruence. lia.
    + rewrite (keys_dict_set_fresh _ _ _ E), length_app. simpl. lia.
Qed.

(** ** The Segments section of the Markdown text *)

(** X4: for a result whose segments are a non-empty list, the Markdown text
    is the Markdown text of the same result without segments, followed by a
    blank line, the heading "## Segments", a blank line and one entry per
    segment in order, numbered from 1; the header and the content are not
    altered by the segments. *)
Theorem markdown_appends_segments (lib : PyLib) (now : string) (res : dict)
  (segments : list pyval) :
  dict_get res "segments" (PList []) = PList segments ->
  segments <> [] ->
  format_markdown lib now res
  = (base <- format_markdown lib now (dict_set res "segments" (PList [])) ;;
     entries <- cues (fun i s => md_entry i s EmptyString) 1 segments ;;
     Ok (base +:+ nl +:+ "## Segments" +:+ nl +:+ nl +:+ entries)).
Proof.
  intros Hseg Hne. unfold format_markdown. cbv zeta.
  rewrite !dict_get_dict_set. cbn [String.eqb Ascii.eqb Bool.eqb].
  rewrite Hseg. destruct segments as [ | s l ]; [ congruence | ].
  cbn [truthy py_iter]. run. repeat step.
  rewrite md_loop_cues. run.
  destruct (cues _ 1 (s :: l)) as [r | x]; [ | reflexivity ].
  rewrite !append_assoc. reflexivity.
Qed.

Lemma markdown_appends_segments_witness :
  exists base entries,
    format_markdown stub_lib sample_now
      (dict_set sample_result "segments" (PList [])) = Ok base
    /\ cues (fun i s => md_entry i s EmptyString) 1
         [PDict [("start", PInt 0); ("end", PInt 2); ("text", PStr " a ")]]%string
       = Ok entries
    /\ format_markdown stub_lib sample_now
         (dict_set sample_result "segments"
            (PList [PDict [("start", PInt 0); ("end", PInt 2);
                           ("text", PStr " a ")]]%string))
       = Ok (base +:+ nl +:+ "## Segments" +:+ nl +:+ nl +:+ entries).
Proof.
  eexists. eexists. split; [ vm_compute; reflexivity | ].
  split; [ vm_compute; reflexivity | ].
  rewrite (markdown_appends_segments stub_lib sample_now _
             [PDict [("start", PInt 0); ("end", PInt 2);
                     ("text", PStr " a ")]]%string);
    [ | reflexivity | discriminate ].
  vm_compute. reflexivity.
Defined.

(** * Properties of the transcriber *)


(** X5: _get_device returns a device that the machine has; it returns the
    configured device whenever the machine has it, and when it has not, MPS
    if there is one, else CUDA if there is one, else the CPU. *)
Theorem get_device_is_available (config : DecodingConfig) (torch : Torch) :
  available torch (_get_device config torch) = true
  /\ (available torch (device config) = true ->
      _get_device config torch = device config)
  /\ (available torch (device config) = false ->
      _get_device config torch
      = if mps_is_available torch then Mps
        else if cuda_is_available torch then Cuda else Cpu).
Proof.
  unfold _get_device, available.
  destruct (device config), (cuda_is_available torch) eqn:Hc,
    (mps_is_available torch) eqn:Hm; simpl; rewrite ?Hc, ?Hm;
    repeat split; intros; try reflexivity; try discriminate.
Qed.

(** X6: the decoding options hold fp16 = False exactly when the device that
    _get_device selects is the CPU, and never fp16 = True; on a machine with
    neither CUDA nor MPS they hold fp16 = False whatever device is
    configured.  The options hold no key other than language, temperature,
    fp16 and decode_options. *)
Theorem options_disable_fp16_on_cpu (config : DecodingConfig) (torch : Torch) :
  let options := _get_transcription_options config torch in
  lookup "fp16" options
  = (if device_eqb (_get_device config torch) Cpu then Some (PBool false)
     else None)
  /\ (cuda_is_available torch = false -> mps_is_available torch = false ->
      lookup "fp16" options = Some (PBool false))
  /\ (forall k, In k (keys options) ->
                In k ["language"; "temperature"; "fp16"; "decode_options"]%string).
Proof.
  cbv zeta.
  assert (Hcpu : cuda_is_available torch = false ->
                 mps_is_available torch = false ->
                 device_eqb (_get_device config torch) Cpu = true).
  { intros Hc Hm. unfold _get_device. rewrite Hc, Hm.
    destruct (device config); reflexivity. }
  unfold _get_transcription_options. cbv zeta.
  destruct (device_eqb (_get_device config torch) Cpu) eqn:Hd.
  - destruct (language config) as [l | ]; [ destruct (truthy (PStr l)) | ];
      destruct (negb (float_eqb (temperature config) zero));
      destruct (negb (float_eqb (top_p config) (of_Z 1)));
      destruct (top_k config); cbn;
      (split; [ reflexivity | split; [ reflexivity | intros k; tauto ] ]).
  - destruct (language config) as [l | ]; [ destruct (truthy (PStr l)) | ];
      destruct (negb (float_eqb (temperature config) zero));
      destruct (negb (float_eqb (top_p config) (of_Z 1)));
      destruct (top_k config); cbn;
      (split; [ reflexivity
              | split; [ intros Hc Hm; specialize (Hcpu Hc Hm); discriminate
                       | intros k; tauto ] ]).
Qed.

Lemma options_disable_fp16_on_cpu_witness :
  lookup "fp16"
    (_get_transcription_options
       {| model := "base"; language := Some "en"%string; temperature := zero;
          top_p := Fin false unit; top_k := None; device := Cuda |}
       {| cuda_is_available := false; mps_is_available := false |})
  = Some (PBool false).
Proof.
  apply (proj1 (proj2 (options_disable_fp16_on_cpu
                         {| model := "base"; language := Some "en"%string;
                            temperature := zero; top_p := Fin false unit;
                            top_k := None; device := Cuda |}
                         {| cuda_is_available := false;
                            mps_is_available := false |})));
    reflexivity.
Defined.

Lemma get_device_is_available_witness :
  _get_device
    {| model := "base"; language := None; temperature := zero;
       top_p := Fin false unit; top_k := None; device := Cuda |}
    {| cuda_is_available := false; mps_is_available := true |} = Mps
  /\ _get_device
       {| model := "base"; language := None; temperature := zero;
          top_p := Fin false unit; top_k := None; device := Mps |}
       {| cuda_is_available := false; mps_is_available := true |} = Mps.
Proof.
  split.
  - apply (proj2 (proj2 (get_device_is_available
                           {| model := "base"; language := None;
                              temperature := zero; top_p := Fin false unit;
                              top_k := None; device := Cuda |}
                           {| cuda_is_available := false;
                              mps_is_available := true |}))).
    reflexivity.
  - apply (proj1 (proj2 (get_device_is_available
                           {| model := "base"; language := None;
                              temperature := zero; top_p := Fin false unit;
                              top_k := None; device := Mps |}
                           {| cuda_is_available := false;
                              mps_is_available := true |}))).
    reflexivity.
Defined.

(** * Properties of the configuration and of the application *)

(** X7: when validate_paths returns, exactly one of audio_file and
    audio_folder is configured and that path exists; discover_audio_files
    then returns a list and never raises "No audio source specified".  The
    file system is changed only by creating a configured output folder that
    did not exist. *)
Theorem validated_config_has_one_source {S : Type} (fs : FileSystem S)
  (config : TranscriptionConfig) (s s' : S) :
  validate_paths fs config s = Ok s' ->
  ((exists f, audio_file config = Some f /\ audio_folder config = None
              /\ fs_exists fs s f = true)
   \/ (exists d, audio_file config = None /\ audio_folder config = Some d
                 /\ fs_exists fs s d = true))
  /\ (forall tree, returns (discover_audio_files config tree))
  /\ (transcribe_folder config = None -> s' = s)
  /\ (forall t, transcribe_folder config = Some t ->
                fs_exists fs s t = true -> s' = s).
Proof.
  unfold validate_paths, discover_audio_files, returns. cbv zeta.
  destruct (audio_file config) as [f | ], (audio_folder config) as [d | ];
    try destruct (fs_exists fs s f) eqn:Ef;
    try destruct (fs_exists fs s d) eqn:Ed;
    simpl; try discriminate; intros H.
  - split; [ left; eauto | ].
    split; [ intros; eauto | ].
    destruct (transcribe_folder config) as [t | ].
    + split; [ discriminate | ].
      intros t' Ht Hex. injection Ht as <-. rewrite Hex in H. congruence.
    + split; [ congruence | discriminate ].
  - split; [ right; eauto | ].
    split; [ intros; eauto | ].
    destruct (transcribe_folder config) as [t | ].
    + split; [ discriminate | ].
      intros t' Ht Hex. injection Ht as <-. rewrite Hex in H. congruence.
    + split; [ congruence | discriminate ].
Qed.

Lemma validated_config_has_one_source_witness :
  validate_paths full_fs (folder_config (parse_path "/data") false) tt = Ok tt
  /\ returns (discover_audio_files (folder_config (parse_path "/data") false)
                sample_tree).
Proof.
  assert (H : validate_paths full_fs
                (folder_config (parse_path "/data") false) tt = Ok tt)
    by reflexivity.
  split; [ exact H | ].
  destruct (validated_config_has_one_source full_fs _ tt tt H)
    as (_ & Hd & _).
  apply Hd.
Defined.

(** ** The processing loop *)

Lemma process_each_app {S : Type}
  (process : S -> path -> S * attempt Datatypes.unit) (l1 l2 : list path) :
  forall s,
    process_each process (l1 ++ l2) s
    = (fst (process_each process l2 (fst (process_each process l1 s))),
       snd (process_each process l1 s)
       ++ snd (process_each process l2 (fst (process_each process l1 s)))).
Proof.
  induction l1 as [ | f l1 IH ]; intros s; simpl.
  - destruct (process_each process l2 s); reflexivity.
  - destruct (process s f) as [s1 o]. rewrite IH.
    destruct (process_each process l1 s1) as [s2 e1]. simpl.
    destruct (process_each process l2 s2) as [s3 e2]. simpl.
    destruct o; reflexivity.
Qed.

Lemma process_batch_each {S : Type}
  (process : S -> path -> S * attempt Datatypes.unit) (batch : list path) :
  forall s advanced r,
    process_batch process batch s advanced r
    = (fst (process_each process batch s),
       advanced + Z.of_nat (List.length batch),
       {| main_advanced := main_advanced r + Z.of_nat (List.length batch);
          finished_tasks := finished_tasks r;
          logged := logged r ++ snd (process_each process batch s) |}).
Proof.
  induction batch as [ | f batch IH ]; intros s advanced r.
  - simpl. rewrite !Z.add_0_r, app_nil_r. destruct r; reflexivity.
  - cbn [process_batch process_each].
    destruct (process s f) as [s1 o]. rewrite IH.
    destruct (process_each process batch s1) as [s2 e]. cbn [fst snd].
    replace (Z.of_nat (List.length (f :: batch)))
      with (1 + Z.of_nat (List.length batch))
      by (cbn [List.length]; lia).
    destruct o; cbn [main_advanced finished_tasks logged];
      rewrite <- ?app_assoc, <- !Z.add_assoc; reflexivity.
Qed.

Lemma process_batches_each {S : Type}
  (process : S -> path -> S * attempt Datatypes.unit)
  (batches : list (list path)) :
  forall s r,
    process_batches process batches s r
    = (fst (process_each process (List.concat batches) s),
       {| main_advanced :=
            main_advanced r
            + Z.of_nat (List.length (List.concat batches));
          finished_tasks := finished_tasks r ++ completed_tasks batches;
          logged :=
            logged r ++ snd (process_each process (List.concat batches) s) |}).
Proof.
  induction batches as [ | b batches IH ]; intros s r.
  - simpl. rewrite Z.add_0_r, !app_nil_r. destruct r; reflexivity.
  - cbn [process_batches List.concat]. rewrite process_batch_each, IH.
    rewrite process_each_app. cbn [fst snd main_advanced finished_tasks logged].
    rewrite length_app, Nat2Z.inj_add. unfold completed_tasks. cbn [map].
    rewrite <- !app_assoc, <- !Z.add_assoc. reflexivity.
Qed.

(** The batches hold the files, in order. *)
Lemma batch_files_concat (config : TranscriptionConfig) (files : list path) :
  1 <= batch_size config ->
  exists batches,
    batch_files config files = Ok batches /\ List.concat batches = files.
Proof.
  intros Hbs. rewrite (batch_files_chunks config files Hbs).
  eexists. split; [ reflexivity | ].
  set (n := Z.of_nat (List.length files)).
  set (bs := batch_size config) in *.
  pose proof (Z.div_mod (n + bs - 1) bs ltac:(lia)) as Hdm.
  pose proof (Z.mod_pos_bound (n + bs - 1) bs ltac:(lia)) as Hmb.
  assert (Hq : 0 <= (n + bs - 1) / bs) by (apply Z.div_pos; lia).
  rewrite concat_chunks. apply firstn_all2. unfold n in *. nia.
Qed.

(** X8: for a batch size of at least 1, _process_files processes every file
    exactly once and in the order of the list, whether or not earlier files
    failed: the final state and the logged failures are those of processing
    the files one after the other, the main task advances once per file, and
    every batch task is advanced to its total.  The batch size only decides
    how the tasks are grouped. *)
Theorem process_files_handles_each_file_once {S : Type}
  (config : TranscriptionConfig)
  (process : S -> path -> S * attempt Datatypes.unit) (files : list path)
  (s : S) :
  1 <= batch_size config ->
  exists batches s' r,
    batch_files config files = Ok batches
    /\ _process_files config process files s = Ok (s', r)
    /\ (s', logged r) = process_each process files s
    /\ main_advanced r = Z.of_nat (List.length files)
    /\ finished_tasks r = completed_tasks batches.
Proof.
  intros Hbs.
  destruct (batch_files_concat config files Hbs) as (batches & Hb & Hc).
  unfold _process_files. rewrite Hb. run.
  rewrite process_batches_each. rewrite Hc.
  do 3 eexists. split; [ reflexivity | split; [ reflexivity | ] ].
  cbn [logged main_advanced finished_tasks app].
  split; [ | split; [ lia | reflexivity ] ].
  destruct (process_each process files s); reflexivity.
Qed.

Lemma process_files_handles_each_file_once_witness :
  exists r,
    _process_files
      {| audio_file := None; audio_folder := None; transcribe_folder := None;
         transcription_file := None; recursive := false; batch_size := 2 |}
      counting_process
      (map parse_path ["a.mp3"; "b.txt"; "c.wav"]%string) 0
    = Ok (3, r)
    /\ main_advanced r = 3
    /\ finished_tasks r = [(2, 2); (1, 1)]
    /\ logged r
       = [(parse_path "b.txt",
           Exception (ValueError "Unsupported audio format"))].
Proof.
  destruct (process_files_handles_each_file_once
              {| audio_file := None; audio_folder := None;
                 transcribe_folder := None; transcription_file := None;
                 recursive := false; batch_size := 2 |}
              counting_process
              (map parse_path ["a.mp3"; "b.txt"; "c.wav"]%string) 0)
    as (batches & s' & r & Hb & Hp & He & Hm & Ht); [ simpl; lia | ].
  vm_compute in Hb. injection Hb as <-.
  vm_compute in He. injection He as -> Hl.
  exists r. split; [ exact Hp | split; [ exact Hm | split; [ exact Ht | ] ] ].
  exact Hl.
Defined.

(** ** The metadata that transcribe_file attaches *)

(** What a returned result says about the call. *)
Lemma transcribe_file_done (config : DecodingConfig) (torch : Torch)
  (env : Whisper) (audio_path : path) (res' : dict) :
  transcribe_file config torch env audio_path = Done res' ->
  exists res size duration,
    file_exists env audio_path = true
    /\ _is_audio_file audio_path = true
    /\ transcribe env (path_str audio_path)
         (_get_transcription_options config torch) = Done res
    /\ st_size env audio_path = Done size
    /\ (if truthy (dict_get res "segments" PNone) then
          l <~ py_last (dict_get res "segments" (PList [PDict []])) ;;
          lift (py_get l "end" (PInt 0))
        else Done (PInt 0)) = Done duration
    /\ res'
       = dict_set res "metadata"
           (PDict [("file_path", PStr (path_str audio_path));
                   ("file_size", PInt size);
                   ("model", PStr (model config));
                   ("language",
                    dict_get res "language"
                      match language config with
                      | Some l => PStr l
                      | None => PNone
                      end);
                   ("duration", duration)]%string).
Proof.
  unfold transcribe_file. cbv zeta.
  destruct (file_exists env audio_path); [ | discriminate ].
  destruct (_is_audio_file audio_path); [ | discriminate ].
  cbn [negb].
  destruct (transcribe env _ _) as [res | ]; [ | discriminate ].
  cbn [attempt_bind].
  destruct (st_size env audio_path) as [size | ]; [ | discriminate ].
  cbn [attempt_bind].
  destruct (if truthy (dict_get res "segments" PNone) then _ else _)
    as [duration | ] eqn:Hd; [ | discriminate ].
  cbn [attempt_bind]. intros H. injection H as <-.
  exists res, size, duration. repeat split; try reflexivity. exact Hd.
Qed.

(** X9: in a result that transcribe_file returns, the metadata duration is 0
    when the model gave no segments, and the end of the last segment (0 when
    that segment has no end) when it gave some; every key of the model's
    result other than metadata is as the model returned it. *)
Theorem transcribe_file_duration (config : DecodingConfig) (torch : Torch)
  (env : Whisper) (audio_path : path) (res' : dict) :
  transcribe_file config torch env audio_path = Done res' ->
  exists res md,
    transcribe env (path_str audio_path)
      (_get_transcription_options config torch) = Done res
    /\ lookup "metadata" res' = Some (PDict md)
    /\ (forall k, k <> "metadata"%string -> lookup k res' = lookup k res)
    /\ (truthy (dict_get res "segments" PNone) = false ->
        lookup "duration" md = Some (PInt 0))
    /\ (forall x l d,
           dict_get res "segments" PNone = PList (x :: l) ->
           last l x = PDict d ->
           lookup "duration" md = Some (dict_get d "end" (PInt 0))).
Proof.
  intros H.
  destruct (transcribe_file_done _ _ _ _ _ H)
    as (res & size & duration & _ & _ & Ht & _ & Hd & ->).
  eexists res, _. split; [ exact Ht | ].
  split; [ apply lookup_dict_set_eq | ].
  split; [ intros k Hk; apply lookup_dict_set_neq; exact Hk | ].
  split.
  - intros Hf. rewrite Hf in Hd. injection Hd as <-. reflexivity.
  - intros x l d Hs Hl.
    assert (Hs' : dict_get res "segments" (PList [PDict []]) = PList (x :: l)).
    { unfold dict_get in *. destruct (lookup "segments" res); congruence. }
    rewrite Hs, Hs' in Hd. cbn [truthy py_last attempt_bind] in Hd.
    rewrite Hl in Hd. cbn [py_get lift] in Hd. injection Hd as <-.
    reflexivity.
Qed.

Lemma forallb_last (P : pyval -> bool) (l : list pyval) (x : pyval) :
  P x = true -> forallb P l = true -> P (last l x) = true.
Proof.
  revert x. induction l as [ | y l IH ]; intros x Hx Hl; [ exact Hx | ].
  simpl in Hl. apply andb_prop in Hl. destruct Hl as [Hy Hl].
  destruct l as [ | z l ]; [ exact Hy | ].
  change (last (y :: z :: l) x) with (last (z :: l) x).
  apply IH; assumption.
Qed.

(** Each formatter returns for a result of the expected shape. *)
Lemma shaped_result_returns (lib : PyLib) (now : string) (res : dict) :
  shaped_result res ->
  returns (format_markdown lib now res)
  /\ returns (format_text lib now res)
  /\ returns (snd (format_json lib now res))
  /\ returns (format_srt res)
  /\ returns (format_vtt res).
Proof.
  intros Hshape. unfold shaped_result in Hshape.
  apply andb_prop in Hshape. destruct Hshape as [H Hmeta].
  apply andb_prop in H. destruct H as [Htext Hsegs].
  apply (absent_or_get _ _ _ (PStr "")) in Htext; [ | exact is_str_empty ].
  apply (absent_or_get _ _ _ (PList [])) in Hsegs; [ | reflexivity ].
  apply (absent_or_get _ _ _ (PDict [])) in Hmeta; [ | reflexivity ].
  destruct (is_str_strip _ Htext) as (tx & Htx).
  destruct (dict_get res "metadata" (PDict [])) as [ | | | | | | md ] eqn:Emd;
    try discriminate.
  simpl in Hmeta.
  pose proof (absent_or_get _ _ _ (PInt 0) Hmeta is_time_0) as Hd0.
  pose proof (absent_or_get _ _ _ (PInt 30) Hmeta is_time_30) as Hd30.
  destruct (py_format_2f_returns _ Hd0) as (dur & Hdur).
  destruct (time_code_returns "," _ Hd30) as (t1 & Ht1).
  destruct (time_code_returns "." _ Hd30) as (t2 & Ht2).
  destruct (dict_get res "segments" (PList [])) as [ | | | | | l | ] eqn:Eseg;
    try discriminate.
  simpl in Hsegs.
  destruct (shaped_segments_loops l Hsegs) as (L1 & L2 & L3).
  unfold format_markdown, format_text, format_srt, format_vtt, format_json.
  cbv zeta. rewrite Emd, Eseg, Htx. unfold py_get. run.
  rewrite Hdur, !format_srt_time_code, !format_vtt_time_code, Ht1, Ht2.
  cbn [snd py_iter].
  destruct l as [ | s l ]; cbn [truthy negb]; repeat split;
    solve [ eexists; reflexivity | apply L1 | apply L2 | apply L3 ].
Qed.

(** X10: when the model returns a result whose text, if present, is a string
    and whose segments, if present, are a list of dicts with times and
    strings, the result that transcribe_file returns has the shape the
    formatters expect, so each of the five formatters returns a string
    for it. *)
Theorem transcribed_result_is_formattable (lib : PyLib) (now : string)
  (config : DecodingConfig) (torch : Torch) (env : Whisper)
  (audio_path : path) (res' : dict) :
  (forall name options res,
      transcribe env name options = Done res ->
      absent_or is_str res "text"
      && absent_or shaped_segments res "segments" = true) ->
  transcribe_file config torch env audio_path = Done res' ->
  shaped_result res'
  /\ returns (format_markdown lib now res')
  /\ returns (format_text lib now res')
  /\ returns (snd (format_json lib now res'))
  /\ returns (format_srt res')
  /\ returns (format_vtt res').
Proof.
  intros Hmodel H.
  destruct (transcribe_file_done _ _ _ _ _ H)
    as (res & size & duration & _ & _ & Ht & _ & Hd & ->).
  specialize (Hmodel _ _ _ Ht).
  apply andb_prop in Hmodel. destruct Hmodel as [Htext Hsegs].
  assert (Hshape : shaped_result
                     (dict_set res "metadata"
                        (PDict [("file_path", PStr (path_str audio_path));
                                ("file_size", PInt size);
                                ("model", PStr (model config));
                                ("language",
                                 dict_get res "language"
                                   match language config with
                                   | Some l => PStr l
                                   | None => PNone
                                   end);
                                ("duration", duration)]%string))).
  { unfold shaped_result, absent_or in *.
    rewrite !lookup_dict_set. cbn [String.eqb Ascii.eqb Bool.eqb].
    rewrite Htext, Hsegs. cbn [andb shaped_metadata lookup String.eqb
                                 Ascii.eqb Bool.eqb].
    unfold dict_get in Hd.
    destruct (lookup "segments" res) as [v | ];
      [ | cbn [truthy] in Hd; injection Hd as <-; exact is_time_0 ].
    destruct v as [ | | | | | l | ]; try discriminate.
    destruct l as [ | x l ];
      [ cbn [truthy] in Hd; injection Hd as <-; exact is_time_0 | ].
    cbn [truthy py_last attempt_bind] in Hd.
    cbn [shaped_segments forallb] in Hsegs.
    apply andb_prop in Hsegs. destruct Hsegs as [Hx Hl].
    pose proof (forallb_last _ l x Hx Hl) as Hlast.
    destruct (last l x) as [ | | | | | | d ]; try discriminate.
    cbn [py_get lift] in Hd. injection Hd as <-.
    cbn [shaped_segment] in Hlast.
    apply andb_prop in Hlast. destruct Hlast as [Hlast _].
    apply andb_prop in Hlast. destruct Hlast as [_ Hend].
    apply absent_or_get; [ exact Hend | exact is_time_0 ]. }
  split; [ exact Hshape | ].
  exact (shaped_result_returns lib now _ Hshape).
Qed.

(** X11: when the model returns no segments and a text that is a string, the
    SRT text of the result that transcribe_file returns is one cue from
    00:00:00,000 to 00:00:00,000 with the trimmed text, the text without the
    white space at its two ends: transcribe_file always writes a duration,
    so the 30 seconds that format_srt uses for a missing duration never apply
    to its results. *)
Theorem transcribed_result_without_segments (config : DecodingConfig)
  (torch : Torch) (env : Whisper) (audio_path : path) (res res' : dict)
  (text : string) :
  transcribe_file config torch env audio_path = Done res' ->
  transcribe env (path_str audio_path)
    (_get_transcription_options config torch) = Done res ->
  truthy (dict_get res "segments" PNone) = false ->
  dict_get res "text" (PStr "") = PStr text ->
  format_srt res'
  = Ok ("1" +:+ nl +:+ "00:00:00,000 --> 00:00:00,000" +:+ nl
        +:+ strip text +:+ nl +:+ nl)
  /\ format_vtt res'
     = Ok ("WEBVTT" +:+ nl +:+ nl +:+ "00:00:00.000 --> 00:00:00.000" +:+ nl
           +:+ strip text +:+ nl +:+ nl)
  /\ trim_of text (strip text).
Proof.
  intros H Ht Hseg Htext.
  destruct (transcribe_file_done _ _ _ _ _ H)
    as (res0 & size & duration & _ & _ & Ht0 & _ & Hd & ->).
  rewrite Ht in Ht0. injection Ht0 as <-.
  rewrite Hseg in Hd. injection Hd as <-.
  assert (Hfalsy : dict_get res "segments" (PList []) = PList []
                   \/ truthy (dict_get res "segments" (PList [])) = false).
  { right. unfold dict_get in *. destruct (lookup "segments" res);
      [ exact Hseg | reflexivity ]. }
  destruct Hfalsy as [Hf | Hf];
    unfold format_srt, format_vtt; cbv zeta;
    rewrite !dict_get_dict_set; cbn [String.eqb Ascii.eqb Bool.eqb];
    rewrite ?Hf, Htext; cbn [truthy negb py_strip py_get]; run;
    (split; [ reflexivity | split; [ reflexivity | apply strip_trim_of ] ]).
Qed.

Lemma transcribe_file_duration_witness :
  exists res' md,
    transcribe_file default_decoding cpu_only sample_whisper
      (parse_path "/data/a.mp3") = Done res'
    /\ lookup "metadata" res' = Some (PDict md)
    /\ lookup "duration" md = Some (PFloat (of_decimal 50 1)).
Proof.
  assert (H : exists res',
             transcribe_file default_decoding cpu_only sample_whisper
               (parse_path "/data/a.mp3") = Done res')
    by (eexists; reflexivity).
  destruct H as (res' & H).
  destruct (transcribe_file_duration _ _ _ _ _ H)
    as (res & md & Ht & Hm & _ & _ & Hd).
  exists res', md. split; [ exact H | split; [ exact Hm | ] ].
  cbn [sample_whisper transcribe] in Ht. injection Ht as <-.
  exact (Hd _ _ _ eq_refl eq_refl).
Defined.

Lemma transcribed_result_is_formattable_witness :
  exists res',
    transcribe_file default_decoding cpu_only sample_whisper
      (parse_path "/data/a.mp3") = Done res'
    /\ returns (format_srt res')
    /\ returns (format_markdown stub_lib sample_now res').
Proof.
  assert (H : exists res',
             transcribe_file default_decoding cpu_only sample_whisper
               (parse_path "/data/a.mp3") = Done res')
    by (eexists; reflexivity).
  destruct H as (res' & H).
  destruct (transcribed_result_is_formattable stub_lib sample_now
              default_decoding cpu_only sample_whisper
              (parse_path "/data/a.mp3") res')
    as (_ & Hmd & _ & _ & Hsrt & _).
  - intros name options res Hr. cbn [sample_whisper transcribe] in Hr.
    injection Hr as <-. vm_compute. reflexivity.
  - exact H.
  - exists res'. split; [ exact H | split; assumption ].
Defined.

Lemma transcribed_result_without_segments_witness :
  exists res',
    transcribe_file default_decoding cpu_only silent_whisper
      (parse_path "/data/a.mp3") = Done res'
    /\ format_srt res'
       = Ok ("1" +:+ nl +:+ "00:00:00,000 --> 00:00:00,000" +:+ nl
             +:+ "Hello world" +:+ nl +:+ nl)%string
    /\ trim_of padded_text "Hello world".
Proof.
  assert (Hstrip : strip padded_text = "Hello world"%string)
    by (vm_compute; reflexivity).
  assert (H : exists res',
             transcribe_file default_decoding cpu_only silent_whisper
               (parse_path "/data/a.mp3") = Done res')
    by (eexists; reflexivity).
  destruct H as (res' & H).
  exists res'. split; [ exact H | ].
  destruct (transcribed_result_without_segments default_decoding cpu_only
              silent_whisper (parse_path "/data/a.mp3")
              [("text", PStr padded_text); ("segments", PList [])]%string
              res' padded_text H eq_refl eq_refl eq_refl)
    as (Hs & _ & Htrim).
  rewrite Hstrip in Hs, Htrim. split; [ exact Hs | exact Htrim ].
Defined.

(** * Exactness of the time-code fields *)

(** Rounding a representable number returns it. *)
Lemma round_ne_exact (s : bool) (X den : Z) :
  representable X -> 0 < den -> round_ne s (X * den) den = Fin s X.
Proof.
  intros HX Hden.
  assert (HX0 : 0 <= X <= X) by (destruct HX as [[? _] _]; lia).
  pose proof (representable_on_grid X X HX HX0) as Hgrid. cbv zeta in Hgrid.
  destruct Hgrid as (Xq & HXq & HXq0).
  unfold round_ne. rewrite Z.div_mul by lia.
  set (sh := Z.max 0 (Z.log2 X + 1 - 53)) in *.
  assert (Hsh : 0 <= sh) by (unfold sh; lia).
  pose proof (pow2_pos sh Hsh) as Hpow.
  assert (Hnum : X * den = Xq * (den * 2 ^ sh)) by (rewrite HXq at 1; ring).
  rewrite Hnum. rewrite Z.div_mul, Z.mod_mul by nia.
  replace (den * 2 ^ sh <? 2 * 0) with false by (symmetry; apply Z.ltb_ge; nia).
  replace (2 * 0 =? den * 2 ^ sh) with false
    by (symmetry; apply Z.eqb_neq; nia).
  cbn [orb andb]. rewrite <- HXq.
  destruct HX as [[_ Htop] _].
  replace (top <=? X) with false by (symmetry; apply Z.leb_gt; lia).
  reflexivity.
Qed.

Lemma representable_int (j : Z) : 0 <= j < 2 ^ 53 -> representable (j * unit).
Proof.
  intros Hj. pose proof unit_pos as Hu. split.
  - split; [ nia | ].
    assert (Ht : top = 2 ^ 1024 * unit) by exact top_unit.
    assert (Hp : 2 ^ 53 <= 2 ^ 1024) by (apply Z.pow_le_mono_r; lia).
    rewrite Ht. revert Hj Hp. generalize (2 ^ 53) (2 ^ 1024). intros. nia.
  - exists j, 1074. split; [ reflexivity | split; [ exact Hj | lia ] ].
Qed.

Lemma sign_round_ne (s : bool) (num den : Z) : sign (round_ne s num den) = s.
Proof. unfold round_ne. cbv zeta. destruct (top <=? _); reflexivity. Qed.

Lemma of_decimal_half : of_decimal 5 1 = Fin false (unit / 2).
Proof. vm_compute. reflexivity. Qed.

(** Floor division of a float below [2^53] by a whole number is exact. *)
Lemma py_float_floordiv_exact (n c : Z) :
  0 <= n < 2 ^ 53 * unit -> 1 <= c < 2 ^ 53 ->
  py_float_floordiv (Fin false n) (Fin false (c * unit))
  = Ok (Fin false (n / (c * unit) * unit)).
Proof.
  intros Hn Hc. pose proof unit_pos as Hu.
  set (m := c * unit). assert (Hm : 0 < m) by (unfold m; nia).
  set (k := n / m).
  pose proof (Z.div_mod n m ltac:(lia)) as Hdm. fold k in Hdm.
  pose proof (Z.mod_pos_bound n m Hm) as Hr.
  assert (Hk0 : 0 <= k) by (apply Z.div_pos; lia).
  assert (Hck : 0 <= c * k < 2 ^ 53).
  { split; [ nia | ]. revert Hn Hc. generalize (2 ^ 53). intros P Hn Hc.
    unfold m in *. nia. }
  assert (Hk : 0 <= k < 2 ^ 53).
  { split; [ lia | ]. revert Hck Hc. generalize (2 ^ 53). intros. nia. }
  unfold py_float_floordiv.
  assert (Hz : (m =? 0) = false) by (apply Z.eqb_neq; lia).
  unfold is_zero at 1. rewrite Hz.
  assert (Hfm : fmod (Fin false n) (Fin false m) = Fin false (n mod m))
    by (unfold fmod; rewrite Hz; reflexivity).
  rewrite Hfm.
  assert (Hsub : sub (Fin false n) (Fin false (n mod m))
                 = Fin false (c * k * unit)).
  { unfold sub, opp, add, signed. cbn [negb].
    replace (n + - (n mod m)) with (c * k * unit) by (unfold m in *; lia).
    destruct (c * k * unit =? 0) eqn:E.
    - apply Z.eqb_eq in E. rewrite E. reflexivity.
    - apply Z.eqb_neq in E.
      replace (c * k * unit <? 0) with false
        by (symmetry; apply Z.ltb_ge; nia).
      rewrite Z.abs_eq by nia.
      rewrite <- (Z.mul_1_r (c * k * unit)) at 1.
      apply round_ne_exact; [ apply representable_int; exact Hck | lia ]. }
  rewrite Hsub.
  assert (Hsign : xorb (ltb (Fin false m) zero) (ltb (Fin false (n mod m)) zero)
                  = false).
  { unfold ltb, zero, signed.
    replace (m <? 0) with false by (symmetry; apply Z.ltb_ge; lia).
    replace (n mod m <? 0) with false by (symmetry; apply Z.ltb_ge; lia).
    reflexivity. }
  rewrite Hsign, andb_false_r.
  assert (Hdiv : div (Fin false (c * k * unit)) (Fin false m)
                 = Fin false (k * unit)).
  { unfold div. rewrite Hz. cbn [xorb].
    replace (c * k * unit * unit) with (k * unit * m) by (unfold m; ring).
    apply round_ne_exact; [ apply representable_int; exact Hk | exact Hm ]. }
  rewrite Hdiv. unfold is_zero.
  destruct (k * unit =? 0) eqn:E; cbn [negb].
  - apply Z.eqb_eq in E. unfold copysign_zero, div. rewrite Hz. cbn [xorb].
    rewrite sign_round_ne, E. reflexivity.
  - unfold floor. rewrite Z.div_mul by lia.
    unfold sub, opp, add, signed. cbn [negb].
    replace (k * unit + - (k * unit) =? 0) with true
      by (symmetry; apply Z.eqb_eq; lia).
    rewrite of_decimal_half. unfold ltb, signed. cbn [andb].
    replace (unit / 2 <? 0) with false; [ reflexivity | ].
    symmetry. apply Z.ltb_ge. apply Z.div_pos; lia.
Qed.

(** The product of a fraction with 1000 is rounded to the whole number of
    milliseconds below the exact product or to the next one. *)
Lemma mul_1000_bounds (f : Z) :
  0 <= f < unit ->
  exists k,
    mul (Fin false f) (Fin false (1000 * unit)) = Fin false k
    /\ f * 1000 / unit <= k / unit <= f * 1000 / unit + 1.
Proof.
  intros Hf. pose proof unit_pos as Hu.
  set (m := f * 1000 / unit).
  pose proof (Z.div_mod (f * 1000) unit ltac:(lia)) as Hdm. fold m in Hdm.
  pose proof (Z.mod_pos_bound (f * 1000) unit Hu) as Hr.
  assert (Hm : 0 <= m < 1000).
  { split; [ apply Z.div_pos; lia | apply Z.div_lt_upper_bound; lia ]. }
  assert (H53 : 1001 < 2 ^ 53) by (vm_compute; reflexivity).
  unfold mul. cbn [xorb].
  destruct (round_ne_le false (f * (1000 * unit)) unit ((m + 1) * unit))
    as (k & Hk & Hkb).
  - nia.
  - exact Hu.
  - apply representable_int. lia.
  - nia.
  - exists k. split; [ exact Hk | ].
    assert (Hlow : m * unit <= k).
    { (* the grid of the rounding divides [unit] *)
      unfold round_ne in Hk. cbv zeta in Hk.
      replace (f * (1000 * unit) / unit) with (f * 1000) in Hk
        by (rewrite Z.mul_assoc, Z.div_mul; lia).
      set (sh := Z.max 0 (Z.log2 (f * 1000) + 1 - 53)) in *.
      assert (Hsh : 0 <= sh <= 1074).
      { split; [ unfold sh; lia | ].
        assert (Z.log2 (f * 1000) < 1084).
        { destruct (Z.eq_dec (f * 1000) 0) as [-> | Hne]; [ simpl; lia | ].
          apply Z.log2_lt_pow2; [ lia | ].
          assert (2 ^ 1084 = 1024 * unit) by (vm_compute; reflexivity). lia. }
        unfold sh. lia. }
      pose proof (pow2_pos sh ltac:(lia)) as Hp.
      assert (Hgrid : unit = 2 ^ (1074 - sh) * 2 ^ sh).
      { unfold unit. rewrite <- Z.pow_add_r by lia. f_equal. lia. }
      pose proof (pow2_pos (1074 - sh) ltac:(lia)) as Hp'.
      set (D := unit * 2 ^ sh) in *.
      assert (HD : 0 < D) by (unfold D; nia).
      pose proof (Z.div_mod (f * (1000 * unit)) D ltac:(lia)) as HdD.
      pose proof (Z.mod_pos_bound (f * (1000 * unit)) D HD) as HrD.
      set (q := f * (1000 * unit) / D) in *.
      assert (Hq : m * 2 ^ (1074 - sh) <= q).
      { apply Z.div_le_lower_bound; [ exact HD | ].
        unfold D. rewrite Hgrid at 1.
        revert Hp Hp' Hdm Hr Hgrid.
        generalize (2 ^ (1074 - sh)) (2 ^ sh). intros a b Ha Hb Hdm Hr Hgrid.
        nia. }
      destruct (top <=? _); [ discriminate | ].
      injection Hk as <-.
      destruct ((D <? _) || _); rewrite Hgrid; revert Hp Hp' Hq;
        generalize (2 ^ (1074 - sh)) (2 ^ sh); intros; nia. }
    split.
    + apply Z.div_le_lower_bound; lia.
    + apply Z.lt_succ_r. apply Z.div_lt_upper_bound; [ lia | ].
      destruct Hkb as [_ Hkb].
      (* k <= (m + 1) * unit < (m + 2) * unit *)
      lia.
Qed.

Lemma py_floordiv_float_exact (n c : Z) :
  0 <= n < 2 ^ 53 * unit -> c = 60 \/ c = 3600 ->
  py_floordiv (NFloat (Fin false n)) (NInt c)
  = Ok (NFloat (Fin false (n / (c * unit) * unit))).
Proof.
  intros Hn Hc. unfold py_floordiv, to_float at 1. run.
  rewrite to_float_const by tauto. run.
  rewrite py_float_floordiv_exact; [ reflexivity | exact Hn | ].
  assert (3600 < 2 ^ 53) by (vm_compute; reflexivity). lia.
Qed.

(** X12: for a float of seconds x with 0 <= x < 2^53, the time-code
    formatters print exactly floor(x / 3600) hours (not wrapped at 24),
    floor((x mod 3600) / 60) minutes and floor(x mod 60) seconds; the
    milliseconds they print are floor(1000 * frac(x)) or one more, never
    less.  (x is n * 2^-1074.) *)
Theorem time_code_fields_are_exact (n : Z) :
  is_time (PFloat (Fin false n)) ->
  n < 2 ^ 53 * unit ->
  exists ms,
    n mod unit * 1000 / unit <= ms <= n mod unit * 1000 / unit + 1
    /\ _format_srt_time (PFloat (Fin false n))
       = Ok (render_time ","
               (n / (3600 * unit), n mod (3600 * unit) / (60 * unit),
                n mod (60 * unit) / unit, ms))
    /\ _format_vtt_time (PFloat (Fin false n))
       = Ok (render_time "."
               (n / (3600 * unit), n mod (3600 * unit) / (60 * unit),
                n mod (60 * unit) / unit, ms)).
Proof.
  intros Ht Hlt. pose proof unit_pos as Hu.
  unfold is_time in Ht. cbn [is_timeb] in Ht.
  apply representableb_sound in Ht.
  assert (Hn : 0 <= n < 2 ^ 53 * unit)
    by (destruct Ht as [[? _] _]; lia).
  pose proof (Z.mod_pos_bound n (3600 * unit) ltac:(lia)) as Hb1.
  assert (H3600 : 3600 * unit < 2 ^ 53 * unit).
  { assert (3600 < 2 ^ 53) by (vm_compute; reflexivity). nia. }
  destruct (mul_1000_bounds (n mod unit)) as (k & Hk & Hkb).
  { apply Z.mod_pos_bound. lia. }
  assert (Hfields :
    time_fields (PFloat (Fin false n))
    = Ok (n / (3600 * unit), n mod (3600 * unit) / (60 * unit),
          n mod (60 * unit) / unit, k / unit)).
  { unfold time_fields, as_num. run.
    rewrite py_floordiv_float_exact by (auto; lia). run.
    unfold py_int at 1. run.
    rewrite py_mod_float by (auto; lia). run.
    rewrite py_floordiv_float_exact by (auto; lia). run.
    unfold py_int at 1. run.
    rewrite py_mod_float by (auto; lia). run. unfold py_int at 1. run.
    rewrite py_mod_float by (auto; lia). run.
    unfold py_mul, to_float at 1. run.
    rewrite to_float_const by tauto. run.
    rewrite Z.mul_1_l, Hk. unfold py_int, signed.
    rewrite !Z.div_mul by lia. reflexivity. }
  exists (k / unit). split; [ exact Hkb | ].
  rewrite format_srt_time_code, format_vtt_time_code.
  unfold time_code. rewrite Hfields. split; reflexivity.
Qed.

Lemma time_code_fields_are_exact_witness :
  exists ms,
    0 <= ms <= 1
    /\ _format_srt_time (PFloat (Fin false (3661 * unit)))
       = Ok (render_time "," (1, 1, 1, ms)).
Proof.
  destruct (time_code_fields_are_exact (3661 * unit)) as (ms & Hb & Hs & _).
  - vm_compute. reflexivity.
  - vm_compute. reflexivity.
  - exists ms.
    assert (E : (3661 * unit) mod unit * 1000 / unit = 0
                /\ 3661 * unit / (3600 * unit) = 1
                /\ (3661 * unit) mod (3600 * unit) / (60 * unit) = 1
                /\ (3661 * unit) mod (60 * unit) / unit = 1)
      by (vm_compute; repeat split; reflexivity).
    destruct E as (E0 & E1 & E2 & E3).
    rewrite E0 in Hb. rewrite E1, E2, E3 in Hs.
    split; [ exact Hb | exact Hs ].
Defined.

(** * Properties of the output paths *)

(** ** Strings and components *)

Lemma append_length (a b : string) :
  String.length (a +:+ b) = (String.length a + String.length b)%nat.
Proof. induction a as [|c a IH]; simpl; [reflexivity | now rewrite IH]. Qed.

Lemma append_inv_r (t a b : string) : a +:+ t = b +:+ t -> a = b.
Proof.
  revert b. induction a as [|c a IH]; intros [|d b] H; simpl in H.
  - reflexivity.
  - apply (f_equal String.length) in H. simpl in H. rewrite append_length in H. lia.
  - apply (f_equal String.length) in H. simpl in H. rewrite append_length in H. lia.
  - injection H as -> H. f_equal. now apply IH.
Qed.

Lemma slash_free_append (a b : string) :
  slash_free (a +:+ b) = slash_free a && slash_free b.
Proof.
  induction a as [|c a IH]; simpl; [reflexivity|].
  now rewrite IH, andb_assoc.
Qed.

Lemma slash_free_substring (s : string) : forall i n,
  slash_free s = true -> slash_free (substring i n s) = true.
Proof.
  induction s as [|c s IH]; intros i n H.
  - destruct i, n; reflexivity.
  - simpl in H. apply andb_true_iff in H as [Hc Hs].
    destruct i as [|i]; destruct n as [|n]; simpl; auto.
    rewrite Hc. simpl. now apply IH.
Qed.

Lemma split_parts_component (s : string) : forall cur,
  slash_free s = true ->
  split_parts s cur =
    if String.eqb (cur +:+ s) EmptyString || String.eqb (cur +:+ s) "."
    then [] else [cur +:+ s].
Proof.
  induction s as [|c s IH]; intros cur H.
  - simpl. now rewrite append_nil_r.
  - simpl in H. apply andb_true_iff in H as [Hc Hs].
    simpl. apply negb_true_iff in Hc. rewrite Hc.
    rewrite (IH _ Hs). rewrite append_assoc. reflexivity.
Qed.

Lemma last_component (l : list string) :
  forallb component l = true -> slash_free (last l EmptyString) = true.
Proof.
  induction l as [|x l IH]; intros H; [reflexivity|].
  simpl in H. apply andb_true_iff in H as [Hx Hl].
  destruct l as [|y l]; [|exact (IH Hl)].
  simpl. unfold component in Hx.
  apply andb_true_iff in Hx as [Hx _]. now apply andb_true_iff in Hx as [Hx _].
Qed.

Lemma slash_free_stem (p : path) :
  proper p = true -> slash_free (stem p) = true.
Proof.
  intros H. apply last_component in H. fold (name p) in H.
  unfold stem. destruct (suffix_start (name p)); [|exact H].
  now apply slash_free_substring.
Qed.

Lemma extension_cases (output_format : string) :
  In (_get_extension_for_format output_format) ["md"; "txt"; "json"; "srt"; "vtt"]%string.
Proof.
  unfold _get_extension_for_format.
  repeat match goal with |- context [if ?b then _ else _] => destruct b end;
    simpl; auto 10.
Qed.

Lemma path_div_component (folder : path) (s : string) :
  slash_free s = true -> s <> EmptyString -> s <> "."%string ->
  path_div folder s = {| absolute := absolute folder; parts := parts folder ++ [s] |}.
Proof.
  intros Hs H0 H1. unfold path_div, parse_path.
  rewrite (split_parts_component s EmptyString Hs). simpl.
  apply String.eqb_neq in H0, H1. rewrite H0, H1. simpl.
  destruct s as [|c s]; [reflexivity|].
  simpl in Hs. apply andb_true_iff in Hs as [Hc _].
  apply negb_true_iff in Hc. now rewrite Hc.
Qed.

Lemma rfind_dot_append (a b : string) :
  rfind_dot (a +:+ b) =
    match rfind_dot b with
    | Some i => Some (String.length a + i)%nat
    | None => rfind_dot a
    end.
Proof.
  induction a as [|c a IH]; simpl.
  - now destruct (rfind_dot b).
  - rewrite IH. now destruct (rfind_dot b).
Qed.

Lemma substring_append_l (a b : string) :
  substring 0 (String.length a) (a +:+ b) = a.
Proof. induction a as [|c a IH]; simpl; [now destruct b | now rewrite IH]. Qed.

Lemma substring_all (b : string) : substring 0 (String.length b) b = b.
Proof. induction b as [|c b IH]; simpl; [reflexivity | now rewrite IH]. Qed.

Lemma substring_append_r (a b : string) (n : nat) :
  substring (String.length a) n (a +:+ b) = substring 0 n b.
Proof. induction a as [|c a IH]; simpl; [reflexivity | exact IH]. Qed.

(** The name [a.e] with a non-empty [a] and a non-empty [e] without dot
    splits into the stem [a] and the suffix [.e]. *)
Lemma suffix_start_dotted (a e : string) :
  a <> EmptyString -> e <> EmptyString -> rfind_dot e = None ->
  suffix_start (a +:+ "." +:+ e) = Some (String.length a).
Proof.
  intros Ha He Hd. unfold suffix_start.
  rewrite rfind_dot_append. simpl. rewrite Hd. simpl.
  rewrite Nat.add_0_r, append_length. simpl.
  assert (H : ((0 <? String.length a)
               && (String.length a <? String.length a + S (String.length e) - 1))%nat
              = true).
  { destruct a as [|c a]; [congruence|]. destruct e as [|d e]; [congruence|].
    apply andb_true_iff. split; apply Nat.ltb_lt; simpl; lia. }
  now rewrite H.
Qed.

Lemma split_parts_proper (s : string) : forall cur,
  slash_free cur = true -> forallb component (split_parts s cur) = true.
Proof.
  induction s as [|c s IH]; intros cur Hcur; simpl.
  - destruct (String.eqb cur EmptyString) eqn:H0; [reflexivity|].
    destruct (String.eqb cur ".") eqn:H1; [reflexivity|].
    simpl. unfold component. now rewrite Hcur, H0, H1.
  - destruct (is_slash c) eqn:Hc.
    + assert (Hrest := IH EmptyString eq_refl).
      destruct (String.eqb cur EmptyString) eqn:H0; [exact Hrest|].
      destruct (String.eqb cur ".") eqn:H1; [exact Hrest|].
      simpl. unfold component at 1. now rewrite Hcur, H0, H1.
    + apply IH. rewrite slash_free_append, Hcur. simpl. now rewrite Hc.
Qed.

Lemma parse_path_proper (s : string) : proper (parse_path s) = true.
Proof. apply split_parts_proper. reflexivity. Qed.

Lemma path_div_proper (p : path) (s : string) :
  proper p = true -> proper (path_div p s) = true.
Proof.
  intros H. unfold path_div.
  destruct (absolute (parse_path s)); [apply parse_path_proper|].
  unfold proper. simpl. rewrite forallb_app.
  apply andb_true_iff. split; [exact H | apply parse_path_proper].
Qed.

Lemma child_proper (p : path) (e : entry) (q : path) (c : entry) :
  proper p = true -> child_of p e q c -> proper q = true.
Proof. intros H [children nm c' _]. now apply path_div_proper. Qed.

Lemma below_proper (p : path) (e : entry) (q : path) (c : entry) :
  below p e q c -> proper p = true -> proper q = true.
Proof.
  induction 1 as [p e q c Hc | p e q c q' c' Hc _ IH]; intros H.
  - exact (child_proper _ _ _ _ H Hc).
  - apply IH. exact (child_proper _ _ _ _ H Hc).
Qed.

Lemma glob_proper (p : path) (e : entry) (rec : bool) (q : path) (c : entry) :
  proper p = true -> In (q, c) (glob p e rec) -> proper q = true.
Proof.
  intros H Hin. apply glob_spec in Hin. destruct rec.
  - exact (below_proper _ _ _ _ Hin H).
  - exact (child_proper _ _ _ _ H Hin).
Qed.

Lemma parent_proper (p : path) : proper p = true -> proper (parent p) = true.
Proof.
  unfold proper, parent. simpl. induction (parts p) as [|x l IH]; [reflexivity|].
  intros H. simpl in H. apply andb_true_iff in H as [Hx Hl].
  destruct l as [|y l]; [reflexivity|].
  change (removelast (x :: y :: l)) with (x :: removelast (y :: l)).
  simpl forallb at 1. rewrite Hx. exact (IH Hl).
Qed.

(** The name of the derived output is a single component. *)
Lemma output_filename_component (p : path) (output_format : string) :
  proper p = true ->
  let s := stem p +:+ "_transcription." +:+ _get_extension_for_format output_format in
  slash_free s = true /\ s <> EmptyString /\ s <> "."%string.
Proof.
  intros H s. split; [|split].
  - unfold s. rewrite !slash_free_append, (slash_free_stem p H).
    destruct (extension_cases output_format) as [<-|[<-|[<-|[<-|[<-|[]]]]]];
      reflexivity.
  - intros E. apply (f_equal String.length) in E. unfold s in E.
    rewrite !append_length in E. simpl in E. lia.
  - intros E. apply (f_equal String.length) in E. unfold s in E.
    rewrite !append_length in E. simpl in E. lia.
Qed.

Lemma get_output_path_derived (config : TranscriptionConfig)
  (audio_path : path) (output_format : string) :
  derives_output config -> proper audio_path = true ->
  get_output_path config audio_path output_format
  = {| absolute := absolute (output_folder config audio_path);
       parts := parts (output_folder config audio_path)
                ++ [stem audio_path +:+ "_transcription."
                    +:+ _get_extension_for_format output_format] |}.
Proof.
  intros Hd Hp.
  destruct (output_filename_component audio_path output_format Hp)
    as (Hs & H0 & H1).
  unfold get_output_path, output_folder.
  assert (E : forall folder,
    path_div folder (stem audio_path +:+ "_transcription."
                     +:+ _get_extension_for_format output_format)
    = {| absolute := absolute folder;
         parts := parts folder ++ [stem audio_path +:+ "_transcription."
                    +:+ _get_extension_for_format output_format] |})
    by (intros folder; now apply path_div_component).
  destruct Hd as [Hd | Hd]; rewrite Hd.
  - destruct (transcribe_folder config); apply E.
  - destruct (transcription_file config), (transcribe_folder config); apply E.
Qed.

Lemma name_snoc (a : bool) (l : list string) (s : string) :
  name {| absolute := a; parts := l ++ [s] |} = s.
Proof. unfold name. simpl. apply last_last. Qed.

Lemma parent_snoc (p : path) (s : string) :
  parent {| absolute := absolute p; parts := parts p ++ [s] |} = p.
Proof. unfold parent. simpl. rewrite removelast_last. now destruct p. Qed.

Lemma extension_dotted (output_format : string) :
  let e := _get_extension_for_format output_format in
  e <> EmptyString /\ rfind_dot e = None
  /\ mem (lower ("." +:+ e)) supported_extensions = false.
Proof.
  destruct (extension_cases output_format) as [<-|[<-|[<-|[<-|[<-|[]]]]]];
    (split; [discriminate | split; reflexivity]).
Qed.

Lemma stem_suffix_dotted (p : path) (a e : string) :
  name p = a +:+ "." +:+ e ->
  a <> EmptyString -> e <> EmptyString -> rfind_dot e = None ->
  stem p = a /\ suffix p = "." +:+ e.
Proof.
  intros Hn Ha He Hd. unfold stem, suffix.
  rewrite Hn, (suffix_start_dotted a e Ha He Hd). split.
  - apply substring_append_l.
  - rewrite substring_append_r, append_length.
    replace (_ + _ - _)%nat with (String.length ("." +:+ e)) by lia.
    apply substring_all.
Qed.

Lemma derived_output_name (config : TranscriptionConfig)
  (audio_path : path) (output_format : string) :
  derives_output config -> proper audio_path = true ->
  let out := get_output_path config audio_path output_format in
  let extension := _get_extension_for_format output_format in
  name out = stem audio_path +:+ "_transcription." +:+ extension
  /\ stem out = stem audio_path +:+ "_transcription"
  /\ suffix out = "." +:+ extension.
Proof.
  intros Hd Hp out extension.
  assert (Hout := get_output_path_derived config audio_path output_format Hd Hp).
  fold out extension in Hout.
  destruct (extension_dotted output_format) as (He & Hdot & _).
  fold extension in He, Hdot.
  assert (Hname : name out = stem audio_path +:+ "_transcription." +:+ extension)
    by (rewrite Hout; apply name_snoc).
  assert (Hn : name out = (stem audio_path +:+ "_transcription") +:+ "." +:+ extension)
    by (rewrite Hname, append_assoc; reflexivity).
  apply stem_suffix_dotted in Hn; [|
    intros E; apply (f_equal String.length) in E; rewrite append_length in E;
    simpl in E; lia | exact He | exact Hdot].
  split; [exact Hname | exact Hn].
Qed.

Lemma discovered_audio (config : TranscriptionConfig) (folder : path)
  (tree : entry) (files : list path) (f : path) :
  audio_file config = None -> audio_folder config = Some folder ->
  proper folder = true ->
  discover_audio_files config tree = Ok files -> In f files ->
  proper f = true /\ _is_audio_file f = true.
Proof.
  intros Ha Hf Hp Hd Hin. unfold discover_audio_files in Hd.
  rewrite Ha, Hf in Hd. injection Hd as <-. unfold _find_audio_files in Hin.
  apply (Permutation_in _ (sorted_perm _)) in Hin.
  apply in_map_iff in Hin. destruct Hin as ([q c] & <- & Hin).
  apply filter_In in Hin. destruct Hin as [Hin Hq]. simpl in *.
  apply andb_true_iff in Hq as [_ Hq]. split; [|exact Hq].
  exact (glob_proper _ _ _ _ _ Hp Hin).
Qed.

(** X13: unless an explicit output file applies, the output path of a
    source lies directly in the configured output folder, or else in the
    folder of the source; its name is the stem of the source followed by
    _transcription. and the extension, so its stem is the stem of the source
    followed by _transcription and its suffix is the extension after a
    dot, also when the stem of the source holds dots. *)
Theorem output_path_is_derived (config : TranscriptionConfig)
  (audio_path : path) (output_format : string) :
  derives_output config -> proper audio_path = true ->
  let out := get_output_path config audio_path output_format in
  let extension := _get_extension_for_format output_format in
  parent out = output_folder config audio_path
  /\ name out = stem audio_path +:+ "_transcription." +:+ extension
  /\ stem out = stem audio_path +:+ "_transcription"
  /\ suffix out = "." +:+ extension
  /\ proper out = proper (output_folder config audio_path).
Proof.
  intros Hd Hp out extension.
  assert (Hout := get_output_path_derived config audio_path output_format Hd Hp).
  fold out extension in Hout.
  destruct (derived_output_name config audio_path output_format Hd Hp)
    as (Hname & Hstem & Hsuffix). fold out extension in Hname, Hstem, Hsuffix.
  split; [|split; [exact Hname|split; [exact Hstem|split; [exact Hsuffix|]]]].
  - rewrite Hout. apply parent_snoc.
  - destruct (output_filename_component audio_path output_format Hp)
      as (Hs & H0 & H1). fold extension in Hs, H0, H1.
    assert (Hc : component (stem audio_path +:+ "_transcription." +:+ extension)
                 = true).
    { unfold component. rewrite Hs.
      apply String.eqb_neq in H0, H1. now rewrite H0, H1. }
    rewrite Hout. unfold proper. cbn [parts]. rewrite forallb_app. cbn [forallb].
    rewrite Hc. now rewrite !andb_true_r.
Qed.

(** X14: unless an explicit output file applies, the output path is never
    an audio file by its suffix, its name differs from the name of the
    source, and so it is never the path of the source, whatever the source
    is called. *)
Theorem output_is_never_the_source (config : TranscriptionConfig)
  (audio_path : path) (output_format : string) :
  derives_output config -> proper audio_path = true ->
  let out := get_output_path config audio_path output_format in
  _is_audio_file out = false
  /\ name out <> name audio_path
  /\ out <> audio_path.
Proof.
  intros Hd Hp out.
  destruct (derived_output_name config audio_path output_format Hd Hp)
    as (_ & Hstem & Hsuffix). fold out in Hstem, Hsuffix.
  assert (Hname : name out <> name audio_path).
  { intros E. assert (Es : stem out = stem audio_path)
      by (unfold stem; rewrite E; reflexivity).
    rewrite Hstem in Es. apply (f_equal String.length) in Es.
    rewrite append_length in Es. simpl in Es. lia. }
  split; [|split; [exact Hname|]].
  - unfold _is_audio_file. rewrite Hsuffix.
    apply (extension_dotted output_format).
  - intros E. apply Hname. now rewrite E.
Qed.

(** X15: in folder mode, the output path of a discovered file is never
    among the files that a discovery returns, for the same folder and any
    content of it: no output replaces a source, and a later run does not
    take the outputs of an earlier one as sources. *)
Theorem outputs_are_never_discovered (config : TranscriptionConfig)
  (folder : path) (tree tree' : entry) (files files' : list path)
  (output_format : string) (f : path) :
  audio_file config = None -> audio_folder config = Some folder ->
  proper folder = true ->
  discover_audio_files config tree = Ok files ->
  discover_audio_files config tree' = Ok files' ->
  In f files ->
  ~ In (get_output_path config f output_format) files'.
Proof.
  intros Ha Hf Hp Hd Hd' Hin Hout.
  destruct (discovered_audio _ _ _ _ _ Ha Hf Hp Hd Hin) as [Hpf _].
  destruct (discovered_audio _ _ _ _ _ Ha Hf Hp Hd' Hout) as [_ Haudio].
  assert (Hder : derives_output config) by (right; exact Ha).
  destruct (derived_output_name config f output_format Hder Hpf)
    as (_ & _ & Hsuffix).
  unfold _is_audio_file in Haudio. rewrite Hsuffix in Haudio.
  destruct (extension_dotted output_format) as (_ & _ & Hmem).
  congruence.
Qed.

(** X16: unless an explicit output file applies, two sources get the same
    output path exactly when they have the same stem and the same output
    folder: with an output folder configured, sources with equal stems
    collide wherever they lie and whatever their suffixes are. *)
Theorem outputs_collide_on_equal_stems (config : TranscriptionConfig)
  (p q : path) (output_format : string) :
  derives_output config -> proper p = true -> proper q = true ->
  get_output_path config p output_format = get_output_path config q output_format
  <-> stem p = stem q /\ output_folder config p = output_folder config q.
Proof.
  intros Hd Hp Hq.
  rewrite (get_output_path_derived config p output_format Hd Hp),
    (get_output_path_derived config q output_format Hd Hq).
  split.
  - intros E. injection E as Ea Eparts.
    apply app_inj_tail in Eparts as [Eparts Es].
    apply append_inv_r in Es. split; [exact Es|].
    destruct (output_folder config p), (output_folder config q).
    simpl in *. congruence.
  - intros [Es Ef]. now rewrite Es, Ef.
Qed.

Lemma output_path_is_derived_witness :
  let out := get_output_path (folder_config (parse_path "/data") false)
               (parse_path "/data/sub/talk.final.mp3") "srt" in
  parent out = parse_path "/data/sub"
  /\ name out = "talk.final_transcription.srt"%string
  /\ stem out = "talk.final_transcription"%string
  /\ suffix out = ".srt"%string
  /\ proper out = true.
Proof.
  apply (output_path_is_derived (folder_config (parse_path "/data") false)
           (parse_path "/data/sub/talk.final.mp3") "srt");
    [left; reflexivity | reflexivity].
Defined.

Lemma output_is_never_the_source_witness :
  let out := get_output_path (folder_config (parse_path "/data") false)
               (parse_path "/data/a_transcription.md") "md" in
  _is_audio_file out = false
  /\ name out <> "a_transcription.md"%string
  /\ out <> parse_path "/data/a_transcription.md".
Proof.
  apply (output_is_never_the_source (folder_config (parse_path "/data") false)
           (parse_path "/data/a_transcription.md") "md");
    [left; reflexivity | reflexivity].
Defined.

Lemma outputs_are_never_discovered_witness :
  ~ In (get_output_path (folder_config (parse_path "/data") true)
          (parse_path "/data/sub/d.m4a") "vtt")
       [parse_path "/data/a.mp3"; parse_path "/data/b.wav";
        parse_path "/data/sub/d.m4a"].
Proof.
  apply (outputs_are_never_discovered
           (folder_config (parse_path "/data") true) (parse_path "/data")
           sample_tree sample_tree
           [parse_path "/data/a.mp3"; parse_path "/data/b.wav";
            parse_path "/data/sub/d.m4a"]
           [parse_path "/data/a.mp3"; parse_path "/data/b.wav";
            parse_path "/data/sub/d.m4a"]
           "vtt" (parse_path "/data/sub/d.m4a"));
    try reflexivity.
  right; right; left; reflexivity.
Defined.

Lemma outputs_collide_on_equal_stems_witness :
  get_output_path (folder_config (parse_path "/data") false)
    (parse_path "/data/a.mp3") "md"
  = get_output_path (folder_config (parse_path "/data") false)
      (parse_path "/data/a.wav") "md"
  /\ get_output_path (folder_config (parse_path "/data") true)
       (parse_path "/data/a.mp3") "md"
     <> get_output_path (folder_config (parse_path "/data") true)
          (parse_path "/data/sub/a.mp3") "md".
Proof.
  split.
  - apply (outputs_collide_on_equal_stems
             (folder_config (parse_path "/data") false)
             (parse_path "/data/a.mp3") (parse_path "/data/a.wav") "md");
      [left; reflexivity | reflexivity | reflexivity | split; reflexivity].
  - intros E.
    apply (outputs_collide_on_equal_stems
             (folder_config (parse_path "/data") true)
             (parse_path "/data/a.mp3") (parse_path "/data/sub/a.mp3") "md")
      in E; [| left; reflexivity | reflexivity | reflexivity].
    destruct E as [_ E]. discriminate E.
Defined.

(** * Properties of the file statistics *)

(** ** The dict of counts *)











(** ** The total size *)

Lemma sum_sizes_readable (env : Whisper) (files : list path) :
  sizes_readable env files ->
  forall acc, sum_sizes env files acc = Done (acc + existing_size env files).
Proof.
  induction files as [ | f files IH ]; intros Hr acc.
  - unfold existing_size. simpl. now rewrite Z.add_0_r.
  - assert (Hr' : sizes_readable env files)
      by (intros g Hg; apply Hr; now right).
    cbn [sum_sizes]. unfold existing_size. cbn [filter].
    destruct (file_exists env f) eqn:Hf.
    + destruct (Hr f (or_introl eq_refl) Hf) as (z & Hz).
      rewrite Hz. cbn [attempt_bind]. rewrite (IH Hr').
      cbn [map fold_right]. unfold size_of at 1. rewrite Hz.
      unfold existing_size. now rewrite Z.add_assoc.
    + apply (IH Hr').
Qed.

Lemma unit_split : unit = 2 ^ 1054 * 1048576 /\ 0 < 2 ^ 1054.
Proof. split; [ vm_compute; reflexivity | reflexivity ]. Qed.

(** Below [2^53] bytes the division by [1024 * 1024] is exact. *)
Lemma scaled_below (t P Q R : Z) :
  0 <= t < R -> R <= Q -> 0 < P -> 0 <= t * P < Q * (P * 1048576).
Proof. intros. nia. Qed.

Lemma py_truediv_int_exact (total : Z) :
  0 <= total < 2 ^ 53 ->
  py_truediv_int total (1024 * 1024) = Ok (Fin false (total * 2 ^ 1054)).
Proof.
  intros Ht. unfold py_truediv_int.
  change (1024 * 1024) with 1048576. change (1048576 =? 0) with false.
  change (1048576 <? 0) with false. change (Z.abs 1048576) with 1048576.
  cbv iota.
  replace (total <? 0) with false by (symmetry; apply Z.ltb_ge; lia).
  cbn [xorb]. rewrite Z.abs_eq by lia.
  destruct unit_split as (Hu & HP).
  assert (Hrep : representable (total * 2 ^ 1054)).
  { split.
    - rewrite top_unit, Hu.
      apply (scaled_below total (2 ^ 1054) (2 ^ 1024) (2 ^ 53) Ht);
        [ apply Z.pow_le_mono_r; lia | exact HP ].
    - exists total, 1054. split; [ reflexivity | lia ]. }
  replace (total * unit) with (total * 2 ^ 1054 * 1048576)
    by (rewrite Hu; ring).
  rewrite (round_ne_exact false _ 1048576 Hrep) by lia.
  reflexivity.
Qed.

(** Rounding the exact quotient to two places moves it by at most 0.005. *)
Lemma py_round2_exact (total : Z) :
  0 <= total < 2 ^ 53 ->
  exists q,
    py_round2 (Fin false (total * 2 ^ 1054)) = Ok (of_decimal q 2)
    /\ Z.abs (100 * total - q * 1048576) <= 524288.
Proof.
  intros Ht. unfold py_round2. cbv zeta.
  destruct unit_split as (Hu & HP).
  assert (Hbig : 2 ^ 1134 = 2 ^ 60 * unit)
    by (unfold unit; rewrite <- Z.pow_add_r by lia; reflexivity).
  assert (Hrep : representable (2 ^ 1134)) by (apply representable_pow2; lia).
  change (2 ^ 53) with 9007199254740992 in Ht.
  change (2 ^ 60) with 1152921504606846976 in Hbig.
  pose proof unit_pos as HU.
  set (P := 2 ^ 1054) in *. set (X := 2 ^ 1134) in *. clearbody P X.
  set (U := unit) in *.
  set (q := total * P * 100 / U).
  set (r := total * P * 100 mod U).
  set (up := (U <? 2 * r) || ((2 * r =? U) && Z.odd q)).
  assert (Hq : q = total * 100 / 1048576).
  { unfold q. rewrite Hu.
    replace (total * P * 100) with (P * (total * 100)) by ring.
    apply Z.div_mul_cancel_l; lia. }
  assert (Hr : r = P * ((total * 100) mod 1048576)).
  { unfold r. rewrite Hu.
    replace (total * P * 100) with (P * (total * 100)) by ring.
    apply Z.mul_mod_distr_l; lia. }
  pose proof (Z.div_mod (total * 100) 1048576 ltac:(lia)) as Hdm.
  pose proof (Z.mod_pos_bound (total * 100) 1048576 ltac:(lia)) as Hmb.
  rewrite <- Hq in Hdm.
  set (r' := (total * 100) mod 1048576) in *.
  assert (Hq0 : 0 <= q) by (rewrite Hq; apply Z.div_pos; lia).
  clearbody q r r'.
  set (q' := if up then q + 1 else q).
  assert (Hq' : 0 <= q' <= 1152921504606846976)
    by (unfold q'; destruct up; lia).
  assert (Hnear : Z.abs (100 * total - q' * 1048576) <= 524288).
  { unfold q'. destruct up eqn:Hup.
    - assert (H2 : U <= 2 * r).
      { unfold up in Hup. apply orb_true_iff in Hup as [H | H].
        - apply Z.ltb_lt in H. lia.
        - apply andb_true_iff in H as [H _]. apply Z.eqb_eq in H. lia. }
      assert (1048576 <= 2 * r') by nia.
      lia.
    - assert (H2 : 2 * r <= U).
      { unfold up in Hup. apply orb_false_iff in Hup as [H _].
        apply Z.ltb_ge in H. exact H. }
      assert (2 * r' <= 1048576) by nia.
      lia. }
  clearbody q'.
  exists q'. split; [ | exact Hnear ].
  assert (Hof : round_ne false (q' * U) 100 = round_ne (q' <? 0) (Z.abs q' * U) 100).
  { replace (q' <? 0) with false by (symmetry; apply Z.ltb_ge; lia).
    now rewrite Z.abs_eq by lia. }
  destruct (round_ne_le false (q' * U) 100 X) as (k & Hk & _);
    [ nia | lia | exact Hrep | nia | ].
  rewrite Hk. rewrite Hof in Hk. unfold of_decimal. change (10 ^ 2) with 100.
  fold U. now rewrite Hk.
Qed.

(** X18: when the size of every existing file can be read, the sizes add up
    to less than 2^53 bytes and the batch size is at least 1, get_file_stats
    returns; total_size_mb is the float nearest to a decimal with two places
    q / 100 that lies within 0.005 of the size in MiB of the files that exist
    (missing files count as nothing), and batch_count is ceil(N /
    batch_size). *)
Theorem file_stats_size_and_batches (config : TranscriptionConfig)
  (env : Whisper) (files : list path) :
  sizes_readable env files ->
  0 <= existing_size env files < 2 ^ 53 ->
  1 <= batch_size config ->
  exists st q,
    get_file_stats config env files = Done st
    /\ total_size_mb st = of_decimal q 2
    /\ Z.abs (100 * existing_size env files - q * (1024 * 1024))
       <= 1024 * 1024 / 2
    /\ batch_count st
       = (Z.of_nat (List.length files) + batch_size config - 1)
         / batch_size config.
Proof.
  intros Hr Ht Hbs.
  destruct (py_round2_exact _ Ht) as (q & Hround & Hnear).
  unfold get_file_stats.
  rewrite (sum_sizes_readable env files Hr 0), Z.add_0_l.
  cbn [attempt_bind]. cbv zeta.
  rewrite (py_truediv_int_exact _ Ht). cbn [lift attempt_bind].
  rewrite Hround. cbn [lift attempt_bind].
  rewrite (batch_files_chunks config files Hbs). cbn [lift attempt_bind].
  eexists. exists q. split; [ reflexivity | ]. cbn [total_size_mb batch_count].
  split; [ reflexivity | split; [ exact Hnear | ] ].
  rewrite length_map, length_seq. apply Z2Nat.id.
  apply Z.div_pos; lia.
Qed.


Lemma file_stats_size_and_batches_witness :
  let files := [parse_path "/data/a.mp3"; parse_path "/data/B.MP3";
                parse_path "/data/c.wav"] in
  let config := {| audio_file := None;
                   audio_folder := Some (parse_path "/data");
                   transcribe_folder := None; transcription_file := None;
                   recursive := false; batch_size := 2 |} in
  exists st q,
    get_file_stats config sample_whisper files = Done st
    /\ total_size_mb st = of_decimal q 2
    /\ Z.abs (100 * 3072000 - q * (1024 * 1024)) <= 1024 * 1024 / 2
    /\ batch_count st = 2.
Proof.
  apply (file_stats_size_and_batches
           {| audio_file := None; audio_folder := Some (parse_path "/data");
              transcribe_folder := None; transcription_file := None;
              recursive := false; batch_size := 2 |}
           sample_whisper
           [parse_path "/data/a.mp3"; parse_path "/data/B.MP3";
            parse_path "/data/c.wav"]).
  - intros f _ _. exists 1024000. reflexivity.
  - vm_compute. split; [ discriminate | reflexivity ].
  - vm_compute. discriminate.
Defined.

(** * Discovery and the order of the directory listing *)

(** ** The order of paths *)

Lemma ascii_compare_refl (a : ascii) : Ascii.compare a a = Eq.
Proof.
  pose proof (Ascii.compare_antisym a a) as H.
  destruct (Ascii.compare a a); simpl in H; congruence.
Qed.

Lemma ascii_compare_lt_trans (a b c : ascii) :
  Ascii.compare a b = Lt -> Ascii.compare b c = Lt -> Ascii.compare a c = Lt.
Proof.
  unfold Ascii.compare. rewrite !N.compare_lt_iff. lia.
Qed.

Lemma string_compare_refl (s : string) : String.compare s s = Eq.
Proof.
  induction s as [ | c s IH ]; simpl; [ reflexivity | ].
  now rewrite ascii_compare_refl.
Qed.

Lemma string_compare_lt_trans (x : string) :
  forall y z,
    String.compare x y = Lt -> String.compare y z = Lt ->
    String.compare x z = Lt.
Proof.
  induction x as [ | a x IH ]; intros [ | b y ] [ | c z ]; simpl;
    try discriminate; try reflexivity.
  destruct (Ascii.compare a b) eqn:Hab; try discriminate;
    destruct (Ascii.compare b c) eqn:Hbc; try discriminate; intros H1 H2.
  - apply Ascii.compare_eq_iff in Hab, Hbc. subst.
    rewrite ascii_compare_refl. exact (IH _ _ H1 H2).
  - apply Ascii.compare_eq_iff in Hab. subst. now rewrite Hbc.
  - apply Ascii.compare_eq_iff in Hbc. subst. now rewrite Hab.
  - now rewrite (ascii_compare_lt_trans a b c Hab Hbc).
Qed.

Lemma parts_leb_trans (a : list string) :
  forall b c,
    parts_leb a b = true -> parts_leb b c = true -> parts_leb a c = true.
Proof.
  induction a as [ | x a IH ]; intros [ | y b ] [ | z c ]; simpl;
    try discriminate; try reflexivity.
  destruct (String.compare x y) eqn:Hxy; try discriminate;
    destruct (String.compare y z) eqn:Hyz; try discriminate; intros H1 H2.
  - apply String.compare_eq_iff in Hxy, Hyz. subst.
    rewrite string_compare_refl. exact (IH _ _ H1 H2).
  - apply String.compare_eq_iff in Hxy. subst. now rewrite Hyz.
  - apply String.compare_eq_iff in Hyz. subst. now rewrite Hxy.
  - now rewrite (string_compare_lt_trans x y z Hxy Hyz).
Qed.

Lemma parts_leb_antisym (a : list string) :
  forall b, parts_leb a b = true -> parts_leb b a = true -> a = b.
Proof.
  induction a as [ | x a IH ]; intros [ | y b ]; simpl;
    try discriminate; try reflexivity.
  pose proof (String.compare_antisym y x) as Hyx.
  destruct (String.compare x y) eqn:Hxy; rewrite Hyx; simpl;
    try discriminate.
  intros H1 H2. apply String.compare_eq_iff in Hxy. subst.
  f_equal. exact (IH _ H1 H2).
Qed.

Lemma path_le_trans (p q r : path) : path_le p q -> path_le q r -> path_le p r.
Proof. apply parts_leb_trans. Qed.

(** Proper paths with the same components in the order are equal. *)
Lemma cparts_proper (p q : path) :
  proper p = true -> proper q = true -> cparts p = cparts q -> p = q.
Proof.
  destruct p as [ap pp], q as [aq pq]. unfold proper, cparts. simpl.
  intros Hp Hq E. destruct ap, aq; simpl in E.
  - injection E as ->. reflexivity.
  - subst pq. simpl in Hq. discriminate.
  - subst pp. simpl in Hp. discriminate.
  - now subst.
Qed.

Lemma path_le_antisym (p q : path) :
  proper p = true -> proper q = true -> path_le p q -> path_le q p -> p = q.
Proof.
  intros Hp Hq H1 H2. apply cparts_proper; [ exact Hp | exact Hq | ].
  exact (parts_leb_antisym _ _ H1 H2).
Qed.

(** ** Sorted lists *)

Lemma filter_perm {A : Type} (f : A -> bool) (l l' : list A) :
  Permutation l l' -> Permutation (filter f l) (filter f l').
Proof.
  induction 1 as [ | x l l' _ IH | x y l | l l' l'' _ IH1 _ IH2 ]; simpl.
  - constructor.
  - destruct (f x); [ now constructor | exact IH ].
  - destruct (f x), (f y); try apply Permutation_refl. apply perm_swap.
  - exact (perm_trans IH1 IH2).
Qed.

(** Two sorted lists of proper paths with the same elements are equal. *)
Lemma sorted_unique (l : list path) :
  forall l',
    Forall (fun p => proper p = true) l ->
    StronglySorted path_le l -> StronglySorted path_le l' ->
    Permutation l l' -> l = l'.
Proof.
  induction l as [ | a l IH ]; intros l' Hp Hs Hs' Hperm.
  - apply Permutation_nil in Hperm. now subst.
  - destruct l' as [ | b l' ];
      [ apply Permutation_sym, Permutation_nil in Hperm; discriminate | ].
    inversion Hs as [ | ? ? Hsl Ha ]; subst.
    inversion Hs' as [ | ? ? Hsl' Hb ]; subst.
    inversion Hp as [ | ? ? Hpa Hpl ]; subst.
    assert (Hpb : proper b = true).
    { assert (Hin : In b (a :: l))
        by (apply (Permutation_in _ (Permutation_sym Hperm)); now left).
      rewrite Forall_forall in Hp. exact (Hp b Hin). }
    assert (Hab : a = b).
    { assert (Hin : In a (b :: l'))
        by (apply (Permutation_in _ Hperm); now left).
      assert (Hin' : In b (a :: l))
        by (apply (Permutation_in _ (Permutation_sym Hperm)); now left).
      destruct Hin as [ E | Hin ]; [ now symmetry | ].
      destruct Hin' as [ E | Hin' ]; [ exact E | ].
      rewrite Forall_forall in Ha, Hb.
      exact (path_le_antisym a b Hpa Hpb (Ha b Hin') (Hb a Hin)). }
    subst b. f_equal. apply IH; try assumption.
    exact (Permutation_cons_inv Hperm).
Qed.

(** Sorting forgets the order of a list of proper paths. *)
Lemma sorted_of_permutation (l l' : list path) :
  Forall (fun p => proper p = true) l -> Permutation l l' ->
  sorted l = sorted l'.
Proof.
  intros Hp Hperm. apply sorted_unique.
  - rewrite Forall_forall in *. intros p Hin. apply Hp.
    exact (Permutation_in _ (sorted_perm l) Hin).
  - apply Sorted_StronglySorted; [ | apply sorted_sorted ].
    intros p q r. apply path_le_trans.
  - apply Sorted_StronglySorted; [ | apply sorted_sorted ].
    intros p q r. apply path_le_trans.
  - eapply perm_trans; [ apply sorted_perm | ].
    eapply perm_trans; [ exact Hperm | apply Permutation_sym, sorted_perm ].
Qed.

(** X19: in folder mode, with a proper folder, discovery does not depend on
    the order in which the file system lists the entries: two listings that
    hold the same entries give the same list of files, so the order of the
    result is fixed by the paths alone. *)
Theorem discovery_ignores_listing_order (config : TranscriptionConfig)
  (folder : path) (tree tree' : entry) :
  audio_file config = None -> audio_folder config = Some folder ->
  proper folder = true ->
  Permutation (glob folder tree (recursive config))
    (glob folder tree' (recursive config)) ->
  discover_audio_files config tree = discover_audio_files config tree'.
Proof.
  intros Ha Hf Hp Hperm. unfold discover_audio_files. rewrite Ha, Hf.
  f_equal. unfold _find_audio_files. apply sorted_of_permutation.
  - apply Forall_forall. intros p Hin.
    apply in_map_iff in Hin. destruct Hin as ([q c] & <- & Hin).
    apply filter_In in Hin. destruct Hin as [Hin _].
    exact (glob_proper _ _ _ _ _ Hp Hin).
  - apply Permutation_map, filter_perm. exact Hperm.
Qed.

Lemma discovery_ignores_listing_order_witness :
  discover_audio_files (folder_config (parse_path "/data") false) sample_tree
  = discover_audio_files (folder_config (parse_path "/data") false)
      (Dir (rev [("c.txt", File); ("b.wav", File); ("a.mp3", File);
                 ("sub", Dir [("d.m4a", File)])]%string)).
Proof.
  apply (discovery_ignores_listing_order
           (folder_config (parse_path "/data") false) (parse_path "/data")
           sample_tree
           (Dir (rev [("c.txt", File); ("b.wav", File); ("a.mp3", File);
                      ("sub", Dir [("d.m4a", File)])]%string)));
    try reflexivity.
  unfold glob, listdir, sample_tree. cbn [recursive folder_config].
  apply Permutation_map, Permutation_rev.
Defined.

(** * Discovery and the transcriber *)

Lemma discovered_is_audio (config : TranscriptionConfig) (folder : path)
  (tree : entry) (files : list path) (f : path) :
  audio_file config = None -> audio_folder config = Some folder ->
  discover_audio_files config tree = Ok files -> In f files ->
  _is_audio_file f = true.
Proof.
  intros Ha Hf Hd Hin. unfold discover_audio_files in Hd.
  rewrite Ha, Hf in Hd. injection Hd as <-. unfold _find_audio_files in Hin.
  apply (Permutation_in _ (sorted_perm _)) in Hin.
  apply in_map_iff in Hin. destruct Hin as ([q c] & <- & Hin).
  apply filter_In in Hin. destruct Hin as [_ Hq]. simpl in Hq.
  now apply andb_true_iff in Hq as [_ Hq].
Qed.

(** The duration that [transcribe_file] reads off segments that are a list
    of dicts. *)
Lemma duration_of_dict_list (res : dict) :
  absent_or dict_list res "segments" = true ->
  exists duration,
    (if truthy (dict_get res "segments" PNone) then
       l <~ py_last (dict_get res "segments" (PList [PDict []])) ;;
       lift (py_get l "end" (PInt 0))
     else Done (PInt 0)) = Done duration.
Proof.
  unfold absent_or, dict_get. destruct (lookup "segments" res) as [ v | ].
  - intros Hv. destruct v as [ | | | | | l | ]; try discriminate.
    destruct l as [ | x l ]; [ now exists (PInt 0) | ].
    cbn [truthy py_last attempt_bind].
    assert (Hlast : is_dict (last l x) = true).
    { simpl in Hv. apply andb_true_iff in Hv as [Hx Hl].
      now apply forallb_last. }
    destruct (last l x) as [ | | | | | | d ]; try discriminate.
    eexists. reflexivity.
  - intros _. now exists (PInt 0).
Qed.

(** X20: in folder mode, a discovered file always passes the format check
    of transcribe_file: when the file exists, its size can be read and the
    model returns a result whose segments, if present, are a list of dicts,
    transcribe_file returns a result.  Discovery and the transcriber test
    the suffix against the same extensions. *)
Theorem discovered_file_is_transcribed (config : TranscriptionConfig)
  (decoding : DecodingConfig) (torch : Torch) (env : Whisper)
  (folder : path) (tree : entry) (files : list path) (f : path)
  (res : dict) (size : Z) :
  audio_file config = None -> audio_folder config = Some folder ->
  discover_audio_files config tree = Ok files -> In f files ->
  file_exists env f = true ->
  transcribe env (path_str f) (_get_transcription_options decoding torch)
  = Done res ->
  st_size env f = Done size ->
  absent_or dict_list res "segments" = true ->
  exists res', transcribe_file decoding torch env f = Done res'.
Proof.
  intros Ha Hf Hd Hin He Ht Hs Hseg.
  pose proof (discovered_is_audio _ _ _ _ _ Ha Hf Hd Hin) as Haudio.
  destruct (duration_of_dict_list res Hseg) as (duration & Hdur).
  unfold transcribe_file. cbv zeta. rewrite He, Haudio. cbn [negb].
  rewrite Ht. cbn [attempt_bind]. rewrite Hs. cbn [attempt_bind].
  rewrite Hdur. cbn [attempt_bind].
  eexists. reflexivity.
Qed.

Lemma discovered_file_is_transcribed_witness :
  exists res',
    transcribe_file default_decoding cpu_only sample_whisper
      (parse_path "/data/a.mp3") = Done res'.
Proof.
  apply (discovered_file_is_transcribed
           (folder_config (parse_path "/data") false) default_decoding
           cpu_only sample_whisper (parse_path "/data") sample_tree
           [parse_path "/data/a.mp3"; parse_path "/data/b.wav"]
           (parse_path "/data/a.mp3")
           [("text", PStr "Hello, this is a test transcription.");
            ("language", PStr "en");
            ("segments", dict_get sample_result "segments" (PList []))]%string
           1024000).
  - reflexivity.
  - reflexivity.
  - vm_compute. reflexivity.
  - left. reflexivity.
  - reflexivity.
  - reflexivity.
  - reflexivity.
  - vm_compute. reflexivity.
Defined.
